(** * batch_scanner: code extraction, link generation and the batch session

    A shallow embedding of [batch_scanner.py].

    Python values are modelled as the interpreter holds them:
    - a [str] is a sequence of Unicode code points, each an [N];
    - a [bytes] object is a sequence of octets, each an [N] below 256;
    - a call that can raise returns a [pyresult], and [try]/[except] is a
      combinator on it;
    - the session dictionary [st.session_state] is a record that the
      button handlers take and return;
    - a run of the script is a function of the session and of what the
      widgets return in it, to the session it leaves, the page and the
      calls made on the worksheet. *)

From Stdlib Require Import String Ascii DecimalString.
From stdpp Require Import base numbers list sorting gmap.

Local Open Scope N_scope.

(** ** Python strings and bytes *)

Abbreviation pystr := (list N) (only parsing).
Abbreviation pybytes := (list N) (only parsing).

(** A source literal made of ASCII characters only. *)
Definition lit (s : string) : pystr :=
  map N_of_ascii (list_ascii_of_string s).

Definition HYPHEN : N := 45.
Definition DQUOTE : N := 34.
Definition EQUALS : N := 61.

(** ** Exceptions *)

Inductive pyexn :=
| UnicodeEncodeError (c : N)
| UnicodeDecodeError
| IndexError
| CloudFault (text : pystr).

Inductive pyresult (A : Type) :=
| Return (a : A)
| Raise (e : pyexn).
Arguments Return {A} a.
Arguments Raise {A} e.

(** Sequencing: an exception raised by a statement skips the rest. *)
#[global] Instance pyresult_bind : MBind pyresult := λ A B k m,
  match m with
  | Return a => k a
  | Raise e => Raise e
  end.

(** [try: body except: handler], with a bare [except] that catches all. *)
Definition try_except {A} (body : pyresult A) (handler : pyexn → pyresult A)
  : pyresult A :=
  match body with
  | Return a => Return a
  | Raise e => handler e
  end.

(** ** [str.split(sep)] for a one-character separator, and [xs[0]] *)

Fixpoint str_split (sep : N) (s : pystr) : list pystr :=
  match s with
  | [] => [[]]
  | c :: r =>
      if c =? sep then [] :: str_split sep r
      else match str_split sep r with
           | p :: ps => (c :: p) :: ps
           | [] => [[c]]
           end
  end.

Definition index0 {A} (xs : list A) : pyresult A :=
  match xs with
  | x :: _ => Return x
  | [] => Raise IndexError
  end.

(** ** [str.strip()]

    With no argument it removes the characters for which [str.isspace]
    holds, at both ends. *)

Definition isspace (c : N) : bool :=
  (9 <=? c) && (c <=? 13)
  || (28 <=? c) && (c <=? 32)
  || (c =? 0x85) || (c =? 0xA0) || (c =? 0x1680)
  || (0x2000 <=? c) && (c <=? 0x200A)
  || (c =? 0x2028) || (c =? 0x2029) || (c =? 0x202F)
  || (c =? 0x205F) || (c =? 0x3000).

Fixpoint lstrip (s : pystr) : pystr :=
  match s with
  | [] => []
  | c :: r => if isspace c then lstrip r else s
  end.

Definition rstrip (s : pystr) : pystr := rev (lstrip (rev s)).

Definition strip (s : pystr) : pystr := rstrip (lstrip s).

(** ** [str.encode("utf-8")] *)

Definition is_surrogate (c : N) : bool := (0xD800 <=? c) && (c <=? 0xDFFF).

Definition cont (x : N) : N := N.lor 0x80 (N.land x 0x3F).

(** The octets of one code point.  A surrogate has none; neither has a
    number past U+10FFFF, which no Python string holds. *)
Definition utf8_encode_char (c : N) : pyresult pybytes :=
  if c <? 0x80 then Return [c]
  else if c <? 0x800 then
    Return [N.lor 0xC0 (N.shiftr c 6); cont c]
  else if is_surrogate c then Raise (UnicodeEncodeError c)
  else if c <? 0x10000 then
    Return [N.lor 0xE0 (N.shiftr c 12); cont (N.shiftr c 6); cont c]
  else if c <=? 0x10FFFF then
    Return [N.lor 0xF0 (N.shiftr c 18); cont (N.shiftr c 12);
            cont (N.shiftr c 6); cont c]
  else Raise (UnicodeEncodeError c).

Fixpoint str_encode_utf8 (s : pystr) : pyresult pybytes :=
  match s with
  | [] => Return []
  | c :: r =>
      bs ← utf8_encode_char c;
      rest ← str_encode_utf8 r;
      Return (bs ++ rest)
  end.

(** ** [bytes.decode("utf-8")], strict *)

Definition is_cont (b : N) : bool := (0x80 <=? b) && (b <=? 0xBF).

Definition payload (b : N) : N := N.land b 0x3F.

Fixpoint bytes_decode_utf8 (bs : pybytes) : pyresult pystr :=
  match bs with
  | [] => Return []
  | b0 :: r0 =>
      if b0 <? 0x80 then
        rest ← bytes_decode_utf8 r0; Return (b0 :: rest)
      else if (0xC2 <=? b0) && (b0 <=? 0xDF) then
        match r0 with
        | b1 :: r1 =>
            if is_cont b1 then
              rest ← bytes_decode_utf8 r1;
              Return (N.lor (N.shiftl (N.land b0 0x1F) 6) (payload b1) :: rest)
            else Raise UnicodeDecodeError
        | _ => Raise UnicodeDecodeError
        end
      else if (0xE0 <=? b0) && (b0 <=? 0xEF) then
        match r0 with
        | b1 :: b2 :: r2 =>
            let lo := if b0 =? 0xE0 then 0xA0 else 0x80 in
            let hi := if b0 =? 0xED then 0x9F else 0xBF in
            if (lo <=? b1) && (b1 <=? hi) && is_cont b2 then
              rest ← bytes_decode_utf8 r2;
              Return (N.lor (N.shiftl (N.land b0 0x0F) 12)
                        (N.lor (N.shiftl (payload b1) 6) (payload b2)) :: rest)
            else Raise UnicodeDecodeError
        | _ => Raise UnicodeDecodeError
        end
      else if (0xF0 <=? b0) && (b0 <=? 0xF4) then
        match r0 with
        | b1 :: b2 :: b3 :: r3 =>
            let lo := if b0 =? 0xF0 then 0x90 else 0x80 in
            let hi := if b0 =? 0xF4 then 0x8F else 0xBF in
            if (lo <=? b1) && (b1 <=? hi) && is_cont b2 && is_cont b3 then
              rest ← bytes_decode_utf8 r3;
              Return (N.lor (N.shiftl (N.land b0 0x07) 18)
                        (N.lor (N.shiftl (payload b1) 12)
                           (N.lor (N.shiftl (payload b2) 6) (payload b3)))
                      :: rest)
            else Raise UnicodeDecodeError
        | _ => Raise UnicodeDecodeError
        end
      else Raise UnicodeDecodeError
  end.

(** ** [base64.b64encode] *)

Definition b64_alphabet : pybytes :=
  lit "ABCDEFGHIJKLMNOPQRSTUVWXYZabcdefghijklmnopqrstuvwxyz0123456789+/".

Definition b64_char (i : N) : N := nth (N.to_nat i) b64_alphabet 0.

Fixpoint b64encode (bs : pybytes) : pybytes :=
  match bs with
  | [] => []
  | [a] =>
      [b64_char (N.shiftr a 2);
       b64_char (N.shiftl (N.land a 3) 4);
       EQUALS; EQUALS]
  | [a; b] =>
      [b64_char (N.shiftr a 2);
       b64_char (N.lor (N.shiftl (N.land a 3) 4) (N.shiftr b 4));
       b64_char (N.shiftl (N.land b 15) 2);
       EQUALS]
  | a :: b :: c :: rest =>
      b64_char (N.shiftr a 2)
      :: b64_char (N.lor (N.shiftl (N.land a 3) 4) (N.shiftr b 4))
      :: b64_char (N.lor (N.shiftl (N.land b 15) 2) (N.shiftr c 6))
      :: b64_char (N.land c 63)
      :: b64encode rest
  end.

(** ** The link generator *)

Definition URL_PREFIX : pystr := lit "https://collecthw.com/hw/search/".
Definition LINK_ERROR : pystr := lit "Error generating link".

(** The body of the [try] block. *)
Definition generate_collecthw_url_body (code : pystr) : pyresult pystr :=
  piece ← index0 (str_split HYPHEN code);
  let clean_code := strip piece in
  raw ← str_encode_utf8 clean_code;
  let encoded_bytes := b64encode raw in
  encoded_str ← bytes_decode_utf8 encoded_bytes;
  Return (URL_PREFIX ++ encoded_str).

Definition generate_collecthw_url (code : pystr) : pyresult pystr :=
  try_except (generate_collecthw_url_body code)
             (fun _ => Return LINK_ERROR).

(** ** The regular expression [[A-Z0-9]{5}-[A-Z0-9]{4}]

    Only the constructs the pattern uses: a character set made of ranges,
    repeated a fixed number of times, and a literal character.  Such a
    pattern has one width, so matching needs no backtracking. *)

Inductive re_range := Range (lo hi : N).

Inductive re_item :=
| ReSet (ranges : list re_range) (count : nat)
| ReLit (c : N).

Definition in_range (c : N) (r : re_range) : bool :=
  match r with Range lo hi => (lo <=? c) && (c <=? hi) end.

Definition in_set (ranges : list re_range) (c : N) : bool :=
  existsb (in_range c) ranges.

(** Match [count] characters of the set at the start of [s]: the matched
    text and what follows it. *)
Fixpoint match_set (ranges : list re_range) (count : nat) (s : pystr)
  : option (pystr * pystr) :=
  match count with
  | O => Some ([], s)
  | S k =>
      match s with
      | c :: r =>
          if in_set ranges c then
            match match_set ranges k r with
            | Some (m, rest) => Some (c :: m, rest)
            | None => None
            end
          else None
      | [] => None
      end
  end.

Fixpoint match_items (p : list re_item) (s : pystr) : option (pystr * pystr) :=
  match p with
  | [] => Some ([], s)
  | ReSet ranges count :: p' =>
      match match_set ranges count s with
      | Some (m1, r1) =>
          match match_items p' r1 with
          | Some (m2, r2) => Some (m1 ++ m2, r2)
          | None => None
          end
      | None => None
      end
  | ReLit c :: p' =>
      match s with
      | x :: r1 =>
          if x =? c then
            match match_items p' r1 with
            | Some (m2, r2) => Some (x :: m2, r2)
            | None => None
            end
          else None
      | [] => None
      end
  end.

Definition UPPER_ALNUM : list re_range := [Range 65 90; Range 48 57].

Definition pattern : list re_item :=
  [ReSet UPPER_ALNUM 5; ReLit HYPHEN; ReSet UPPER_ALNUM 4].

(** The scan behind [re.finditer] and [re.findall]: try the pattern at the
    current offset; after a match resume at its end (one character on
    after an empty match), otherwise move one character on.  Every step
    consumes a character, so [fuel] equal to the length of the text is
    enough. *)
Fixpoint scan (p : list re_item) (fuel pos : nat) (s : pystr)
  : list (nat * pystr) :=
  match fuel with
  | O => []
  | S fuel' =>
      match s with
      | [] => []
      | _ :: r =>
          match match_items p s with
          | Some (m, rest) =>
              (pos, m) :: match m with
                          | [] => scan p fuel' (S pos) r
                          | _ => scan p fuel' (pos + length m)%nat rest
                          end
          | None => scan p fuel' (S pos) r
          end
      end
  end.

(** Start offset and text of every match, left to right. *)
Definition re_finditer (p : list re_item) (s : pystr) : list (nat * pystr) :=
  scan p (length s) 0 s.

Definition re_findall (p : list re_item) (s : pystr) : list pystr :=
  map snd (re_finditer p s).

(** ** [set], [list] and [sorted] on strings *)

(** [a <= b] on [str]: code point by code point, a prefix first. *)
Fixpoint str_leb (a b : pystr) : bool :=
  match a, b with
  | [], _ => true
  | _ :: _, [] => false
  | x :: a', y :: b' =>
      if x <? y then true
      else if y <? x then false
      else str_leb a' b'
  end.

Definition str_le (a b : pystr) : Prop := str_leb a b = true.

#[global] Instance str_le_dec a b : Decision (str_le a b) :=
  decide (str_leb a b = true).

(** [set(matches)] *)
Definition to_set (matches : list pystr) : gset (list N) :=
  list_to_set matches.

(** [list(s)]: the members in the order the set enumerates them. *)
Definition to_list (s : gset (list N)) : list pystr := elements s.

(** [sorted(xs)] *)
Definition sorted (xs : list pystr) : list pystr := merge_sort str_le xs.

(** ** The code extractor *)

(** Step 3 of [extract_all_codes], on the text the OCR engine returned. *)
Definition regex_hunt (text : pystr) : list pystr :=
  let matches := re_findall pattern text in
  let unique_matches := sorted (to_list (to_set matches)) in
  unique_matches.

Section Extractor.
(** The imaging collaborators: PIL and Tesseract. *)
Variable Image : Type.
Variable grayscale : Image → Image.
Variable enhance_contrast : Image → Image.
Variable image_to_string : Image → pystr.

Definition extract_all_codes (image : Image) : list pystr :=
  let gray := grayscale image in
  let clean_img := enhance_contrast gray in
  let text := image_to_string clean_img in
  regex_hunt text.
End Extractor.

(** ** The batch session and the spreadsheet *)

(** One entry of [found_cars]: the dictionary
    [{"code": code, "link": link}]. *)
Record car := Car { code : pystr; link : pystr }.

(** [st.session_state], which holds the key ['found_cars'] only. *)
Record session_state := Session { found_cars : list car }.

(** What a handler shows on the page. *)
Inductive ui :=
| Balloons
| ShowSuccess (msg : pystr)
| ShowWarning (msg : pystr)
| ShowError (msg : pystr).

(** The worksheet gspread returns; [append_rows] may raise. *)
Record worksheet := Worksheet {
  append_rows : list (list pystr) → pystr → pyresult unit
}.

(** A call made on the worksheet, with its arguments. *)
Inductive sheet_call :=
| AppendRows (rows : list (list pystr)) (value_input_option : pystr).

(** [str(n)] for a length. *)
Definition str_of_nat (n : nat) : pystr :=
  lit (NilEmpty.string_of_uint (Nat.to_uint n)).

(** [f'=HYPERLINK("{link}", "ID This Car")'] *)
Definition link_formula_of (link : pystr) : pystr :=
  lit "=HYPERLINK(" ++ [DQUOTE] ++ link ++ [DQUOTE] ++ lit ", "
  ++ [DQUOTE] ++ lit "ID This Car" ++ [DQUOTE] ++ lit ")".

(** The [for car in car_list] loop of [save_batch_to_sheet]. *)
Definition build_rows (car_list : list car) : list (list pystr) :=
  fold_left
    (fun rows_to_add car =>
       let link_formula := link_formula_of (link car) in
       let row := [code car; link_formula; lit "Unverified"] in
       rows_to_add ++ [row])
    car_list [].

(** The [for code in codes] loop of the scan handler. *)
Fixpoint build_results (codes : list pystr) (results : list car)
  : pyresult (list car) :=
  match codes with
  | [] => Return results
  | code :: codes' =>
      link ← generate_collecthw_url code;
      build_results codes' (results ++ [Car code link])
  end.

Section Session.
(** What [get_sheet_connection()] returns: the first worksheet, or
    [None] after any failure to reach it. *)
Variable get_sheet_connection : option worksheet.
(** [str(e)] in an f-string. *)
Variable exn_text : pyexn → pystr.

Variable Image : Type.
Variable grayscale : Image → Image.
Variable enhance_contrast : Image → Image.
Variable image_to_string : Image → pystr.

(** Returns [(success, message)], and the calls made on the worksheet. *)
Definition save_batch_to_sheet (car_list : list car)
  : (bool * pystr) * list sheet_call :=
  match get_sheet_connection with
  | None =>
      ((false, [0x274C] ++ lit " Error: Could not connect to Google Sheet."),
       [])
  | Some sheet =>
      let rows_to_add := build_rows car_list in
      let option := lit "USER_ENTERED" in
      match append_rows sheet rows_to_add option with
      | Return _ =>
          ((true, [0x2705] ++ lit " Added " ++ str_of_nat (length rows_to_add)
                  ++ lit " cars to the sheet!"),
           [AppendRows rows_to_add option])
      | Raise e =>
          ((false, [0x274C] ++ lit " Cloud Error: " ++ exn_text e),
           [AppendRows rows_to_add option])
      end
  end.

(** The handler of the "Scan Stack" button. *)
Definition scan_stack (image : Image) (st : session_state)
  : pyresult (session_state * list ui) :=
  let codes := extract_all_codes Image grayscale enhance_contrast
                 image_to_string image in
  match codes with
  | _ :: _ =>
      results ← build_results codes [];
      Return (Session results,
              [ShowSuccess (lit "Found " ++ str_of_nat (length codes)
                            ++ lit " Codes!")])
  | [] =>
      Return (st,
              [ShowWarning
                 (lit "No codes found. Ensure text is horizontal and lit well.")])
  end.

(** The handler of the "Save All" button.  The page shows the button
    only while the batch is not empty: with an empty batch there is
    nothing to click. *)
Definition save_all (st : session_state)
  : option (session_state * list ui * list sheet_call) :=
  match found_cars st with
  | [] => None
  | _ :: _ =>
      let '((success, msg), calls) := save_batch_to_sheet (found_cars st) in
      if success then Some (Session [], [Balloons; ShowSuccess msg], calls)
      else Some (st, [ShowError msg], calls)
  end.
End Session.

(** ** The connection to the spreadsheet *)

Definition SHEET_NAME : pystr := lit "My Collection".

Definition SCOPE : list pystr :=
  [lit "https://spreadsheets.google.com/feeds";
   lit "https://www.googleapis.com/auth/drive"].

Section Connection.
(** The Streamlit secrets and the Google client; each call may raise. *)
Variable CredsDict Creds Client Spreadsheet : Type.
(** [st.secrets[key]] *)
Variable secrets : pystr → pyresult CredsDict.
Variable from_json_keyfile_dict : CredsDict → list pystr → pyresult Creds.
Variable authorize : Creds → pyresult Client.
(** [client.open(name)] *)
Variable client_open : Client → pystr → pyresult Spreadsheet.
Variable sheet1 : Spreadsheet → pyresult worksheet.

(** The body of the [try] block. *)
Definition get_sheet_connection_body : pyresult worksheet :=
  let scope := SCOPE in
  creds_dict ← secrets (lit "gcp_service_account");
  creds ← from_json_keyfile_dict creds_dict scope;
  client ← authorize creds;
  book ← client_open client SHEET_NAME;
  sheet1 book.

(** [except Exception as e: return None] *)
Definition get_sheet_connection : option worksheet :=
  match get_sheet_connection_body with
  | Return sheet => Some sheet
  | Raise _ => None
  end.
End Connection.

(** ** One run of the script

    Streamlit runs the script from top to bottom after every interaction;
    [st.session_state] lives on between the runs.  A run is given what
    the widgets return in it, and yields the session it leaves, what it
    put on the page, the calls it made on the worksheet, and the
    exception that ended it, if one did. *)

Inductive element :=
| Title (text : pystr)
| Write (text : pystr)
| FileUploader (label key : pystr)
| ShowImage (caption : pystr) (width : N)
| Button (label : pystr)
| Spinner (text : pystr)
| Divider
| Subheader (text : pystr)
| Columns (weights : list N)
| ColumnWrite (column : nat) (text : pystr)
| ColumnMarkdown (column : nat) (text : pystr)
| Shown (u : ui).

Record run := Run {
  run_session : session_state;
  run_page : list element;
  run_calls : list sheet_call;
  run_raised : option pyexn
}.

Definition SCAN_LABEL : pystr := [0x1F50D] ++ lit " Scan Stack".
Definition SAVE_LABEL : pystr := [0x1F4BE] ++ lit " Save All to Google Sheet".

(** The [for i, car in enumerate(...)] loop of the preview. *)
Definition preview (cars : list car) : list element :=
  flat_map
    (fun car =>
       [Columns [1; 3];
        ColumnWrite 0 (lit "**" ++ code car ++ lit "**");
        ColumnMarkdown 1 (lit "[Test Link](" ++ link car ++ lit ")")])
    cars.

Section Script.
Variable exn_text : pyexn → pystr.
Variable File Image : Type.
(** [Image.open] and [ImageOps.exif_transpose] *)
Variable image_open : File → Image.
Variable exif_transpose : Image → Image.
Variable grayscale : Image → Image.
Variable enhance_contrast : Image → Image.
Variable image_to_string : Image → pystr.

(** What the widgets return in a run: the uploaded file, if there is one,
    and whether each button was the one clicked.  A button is asked only
    where the script reaches its [st.button] call. *)
Record inputs := Inputs {
  uploaded_file : option File;
  scan_button : bool;
  save_button : bool
}.

(** [session] is [None] while [st.session_state] has no key
    ['found_cars'].  [get_sheet_connection] is what the call of that
    name returns in this run. *)
Definition script_run (get_sheet_connection : option worksheet)
    (session : option session_state) (inp : inputs) : run :=
  let top :=
    [Title ([0x1F4DA] ++ lit " HW Stack Scanner");
     Write (lit "Take a photo of the **top edges** of a stack of cards.")] in
  let st0 := match session with
             | Some st => st
             | None => Session []
             end in
  let top :=
    top ++ [FileUploader (lit "Upload Stack Photo") (lit "stack_uploader")] in
  let '(st1, page1, exn) :=
    match uploaded_file inp with
    | Some file =>
        let image := image_open file in
        let image := exif_transpose image in
        let page := top ++ [ShowImage (lit "Your Stack") 300;
                            Button SCAN_LABEL] in
        if scan_button inp then
          let page := page ++ [Spinner (lit "Reading all codes...")] in
          match scan_stack Image grayscale enhance_contrast image_to_string
                  image st0 with
          | Return (st', shown) => (st', page ++ map Shown shown, None)
          | Raise e => (st0, page, Some e)
          end
        else (st0, page, None)
    | None => (st0, top, None)
    end in
  match exn with
  | Some e => Run st1 page1 [] (Some e)
  | None =>
      match found_cars st1 with
      | [] => Run st1 page1 [] None
      | _ :: _ =>
          let page2 :=
            page1 ++ [Divider; Subheader (lit "Preview Batch")]
            ++ preview (found_cars st1)
            ++ [Divider; Button SAVE_LABEL] in
          if save_button inp then
            match save_all get_sheet_connection exn_text st1 with
            | Some (st2, shown, calls) =>
                Run st2 (page2 ++ map Shown shown) calls None
            | None => Run st1 page2 [] None
            end
          else Run st1 page2 [] None
      end
  end.

(** The sessions a user can bring about: the first run starts without the
    key, every later run from the session the run before left.  Each run
    has its own widget values and its own connection. *)
Inductive reachable : session_state → Prop :=
| reachable_first conn inp :
    reachable (run_session (script_run conn None inp))
| reachable_next conn st inp :
    reachable st →
    reachable (run_session (script_run conn (Some st) inp)).
End Script.

(** The session when the script reaches the preview: the one the run
    began with, or the one the scan handler left. *)
Section Preview.
Variable File Image : Type.
Variable image_open : File → Image.
Variable exif_transpose : Image → Image.
Variable grayscale : Image → Image.
Variable enhance_contrast : Image → Image.
Variable image_to_string : Image → pystr.

Definition session_at_preview (session : option session_state)
    (inp : inputs File) : session_state :=
  let st0 := match session with
             | Some st => st
             | None => Session []
             end in
  match uploaded_file File inp with
  | Some file =>
      if scan_button File inp then
        match scan_stack Image grayscale enhance_contrast image_to_string
                (exif_transpose (image_open file)) st0 with
        | Return (st', _) => st'
        | Raise _ => st0
        end
      else st0
  | None => st0
  end.
End Preview.

(** The two lines of the preview that show a record. *)
Definition is_record_line (e : element) : bool :=
  match e with
  | ColumnWrite _ _ | ColumnMarkdown _ _ => true
  | _ => false
  end.


Definition is_save_button (e : element) : bool :=
  match e with
  | Button label => bool_decide (label = SAVE_LABEL)
  | _ => false
  end.

(** ** Words of the specification *)

(** The substring before the first separator: the whole string when it
    holds none. *)
Fixpoint before_first (sep : N) (s : pystr) : pystr :=
  match s with
  | [] => []
  | c :: r => if c =? sep then [] else c :: before_first sep r
  end.

Definition is_upper_or_digit (c : N) : bool :=
  (65 <=? c) && (c <=? 90) || (48 <=? c) && (c <=? 57).

Definition is_ascii_alnum (c : N) : bool :=
  (65 <=? c) && (c <=? 90) || (97 <=? c) && (c <=? 122)
  || (48 <=? c) && (c <=? 57).

(** An ASCII letter, a digit, a hyphen or a blank. *)
Definition plain_char (c : N) : bool :=
  (65 <=? c) && (c <=? 90) || (97 <=? c) && (c <=? 122)
  || (48 <=? c) && (c <=? 57) || (c =? HYPHEN) || isspace c.

(** Five upper-case letters or digits, a hyphen, four more. *)
Definition code_shape (m : pystr) : bool :=
  match m with
  | [a; b; c; d; e; h; f; g; i; j] =>
      forallb is_upper_or_digit [a; b; c; d; e]
      && (h =? HYPHEN)
      && forallb is_upper_or_digit [f; g; i; j]
  | _ => false
  end.

(** The Code invariant of the data model: ten characters, exactly one
    hyphen, that hyphen at position 5, every other character an
    upper-case letter or a digit. *)
Definition code_invariant (c : pystr) : Prop :=
  length c = 10%nat
  ∧ count_occ N.eq_dec c HYPHEN = 1%nat
  ∧ c !! 5%nat = Some HYPHEN
  ∧ (∀ (i : nat) (x : N),
       c !! i = Some x → i ≠ 5%nat → is_upper_or_digit x = true).

(** The text has the shape of a code at offset [q]. *)
Definition occurs_at (text : pystr) (q : nat) : Prop :=
  code_shape (take 10 (drop q text)) = true.

(** A code point that UTF-8 can carry. *)
Definition encodable (c : N) : bool :=
  negb (is_surrogate c) && (c <=? 0x10FFFF).

(** ** [base64] decoding, to tell encodings apart *)

Fixpoint index_of (c : N) (l : list N) : N :=
  match l with
  | [] => 0
  | x :: r => if x =? c then 0 else N.succ (index_of c r)
  end.

Definition b64_index (c : N) : N := index_of c b64_alphabet.

Fixpoint b64decode (cs : pybytes) : pybytes :=
  match cs with
  | c0 :: c1 :: c2 :: c3 :: rest =>
      let s0 := b64_index c0 in
      let s1 := b64_index c1 in
      let s2 := b64_index c2 in
      let s3 := b64_index c3 in
      let b0 := N.lor (N.shiftl s0 2) (N.shiftr s1 4) in
      let b1 := N.lor (N.shiftl (N.land s1 15) 4) (N.shiftr s2 2) in
      let b2 := N.lor (N.shiftl (N.land s2 3) 6) s3 in
      if c2 =? EQUALS then [b0]
      else if c3 =? EQUALS then [b0; b1]
      else b0 :: b1 :: b2 :: b64decode rest
  | _ => []
  end.

(** A spreadsheet text literal: the text between double quotes. *)
Definition quoted (s : pystr) : pystr := [DQUOTE] ++ s ++ [DQUOTE].

(** The cell formula of a hyperlink to [target] shown as [label]. *)
Definition hyperlink_formula (target label : pystr) : pystr :=
  lit "=HYPERLINK(" ++ quoted target ++ lit ", " ++ quoted label ++ lit ")".

(** The row of one record: its code, the hyperlink to its link, the
    status. *)
Definition row_of (r : car) : list pystr :=
  [code r; hyperlink_formula (link r) (lit "ID This Car"); lit "Unverified"].

(** [batch] holds the (code, link) pairs built from [codes], one per
    code and in their order. *)
Definition pairs_built_from (codes : list pystr) (batch : list car) : Prop :=
  Forall2 (fun c r => code r = c ∧ generate_collecthw_url c = Return (link r))
    codes batch.

(** A record as the scan makes it: a code of the pattern and the link
    of its first five characters. *)
Definition well_formed_record (r : car) : Prop :=
  code_shape (code r) = true
  ∧ link r = URL_PREFIX ++ b64encode (take 5 (code r)).

(** Strictly below, in the order of [sorted]. *)
Definition str_lt (a b : pystr) : Prop := str_le a b ∧ a ≠ b.

Definition well_formed_batch (cars : list car) : Prop :=
  Forall well_formed_record cars
  ∧ StronglySorted str_lt (map code cars).

(** A character that may stand in a URL path or in the message of the
    sentinel, and that is not the double quote. *)
Definition formula_safe (c : N) : bool :=
  (32 <=? c) && (c <? 127) && negb (c =? DQUOTE).

(** A character of base64 text: a letter, a digit, [+], [/] or the
    padding [=]. *)
Definition is_b64_text (c : N) : bool :=
  is_ascii_alnum c || (c =? 43) || (c =? 47) || (c =? EQUALS).

(** The codes written one per line. *)
Definition lines_of (codes : list pystr) : pystr :=
  flat_map (fun c => c ++ [10]) codes.

(** * Properties *)

(** ** Exhaustive checks over small ranges *)

Definition below (n : nat) : list N := map N.of_nat (seq 0 n).

Lemma forallb_below (P : N → bool) (n : nat) :
  forallb P (below n) = true → ∀ x, x < N.of_nat n → P x = true.
Proof.
  intros H x Hx. rewrite forallb_forall in H. apply H.
  unfold below. apply in_map_iff. exists (N.to_nat x). split; [lia|].
  apply in_seq. lia.
Qed.

Lemma forallb_Forall (f : N → bool) (l : list N) :
  forallb f l = true → Forall (fun c => f c = true) l.
Proof.
  induction l as [|c r IH]; simpl; [by constructor|].
  intros [Hc Hr]%andb_prop. constructor; auto.
Qed.

Lemma forallb_below2 (P : N → N → bool) (n m : nat) :
  forallb (fun a => forallb (P a) (below m)) (below n) = true →
  ∀ a b, a < N.of_nat n → b < N.of_nat m → P a b = true.
Proof.
  intros H a b Ha Hb.
  apply (forallb_below (P a) m); [|done].
  by apply (forallb_below (fun a => forallb (P a) (below m)) n).
Qed.

(** ** Splitting and stripping *)

Lemma str_split_head sep s :
  ∃ rest, str_split sep s = before_first sep s :: rest.
Proof.
  induction s as [|c r [rest IH]]; simpl; [by eexists|].
  destruct (c =? sep); [by eexists|]. rewrite IH. by eexists.
Qed.

Lemma index0_split sep s :
  index0 (str_split sep s) = Return (before_first sep s).
Proof. by destruct (str_split_head sep s) as [rest ->]. Qed.

Lemma before_first_prefix sep s : ∃ t, s = before_first sep s ++ t.
Proof.
  induction s as [|c r [t IH]]; simpl; [by exists []|].
  destruct (c =? sep); [by eexists|]. exists t. simpl. congruence.
Qed.

Lemma before_first_no_sep sep s : sep ∉ before_first sep s.
Proof.
  induction s as [|c r IH]; simpl; [apply not_elem_of_nil|].
  destruct (N.eqb_spec c sep); [apply not_elem_of_nil|].
  rewrite not_elem_of_cons. split; [congruence|done].
Qed.

Lemma before_first_id sep s : sep ∉ s → before_first sep s = s.
Proof.
  induction s as [|c r IH]; simpl; [done|].
  rewrite not_elem_of_cons. intros [Hc Hr].
  destruct (N.eqb_spec c sep); [congruence|]. by rewrite IH.
Qed.

Lemma before_first_app sep a b :
  sep ∉ a → before_first sep (a ++ sep :: b) = a.
Proof.
  induction a as [|c r IH]; simpl.
  - by rewrite N.eqb_refl.
  - rewrite not_elem_of_cons. intros [Hc Hr].
    destruct (N.eqb_spec c sep); [congruence|]. by rewrite IH.
Qed.

Lemma Forall_before_first (P : N → Prop) sep s :
  Forall P s → Forall P (before_first sep s).
Proof.
  induction 1 as [|c r Hc Hr IH]; simpl; [done|].
  destruct (c =? sep); by constructor.
Qed.

Lemma Forall_lstrip (P : N → Prop) s : Forall P s → Forall P (lstrip s).
Proof.
  induction 1 as [|c r Hc Hr IH]; simpl; [done|].
  destruct (isspace c); [done|by constructor].
Qed.

Lemma Forall_strip (P : N → Prop) s : Forall P s → Forall P (strip s).
Proof.
  intros H. unfold strip, rstrip.
  apply Forall_rev, Forall_lstrip, Forall_rev, Forall_lstrip, H.
Qed.

Lemma lstrip_id s : Forall (fun c => isspace c = false) s → lstrip s = s.
Proof. destruct 1 as [|c r Hc Hr]; simpl; [done|]. by rewrite Hc. Qed.

Lemma strip_id s : Forall (fun c => isspace c = false) s → strip s = s.
Proof.
  intros H. unfold strip, rstrip. rewrite (lstrip_id s H).
  rewrite lstrip_id; [apply rev_involutive|by apply Forall_rev].
Qed.

(** What [strip] leaves: the string is blanks, the result, blanks; and
    the result neither starts nor ends with a blank. *)
Lemma lstrip_spec s :
  ∃ ws, s = ws ++ lstrip s ∧ Forall (fun c => isspace c = true) ws
        ∧ (∀ c r, lstrip s = c :: r → isspace c = false).
Proof.
  induction s as [|c r (ws & Hs & Hws & Hhd)]; simpl.
  - exists []. by repeat split.
  - destruct (isspace c) eqn:Hc.
    + exists (c :: ws). split; [by rewrite <- app_comm_cons, <- Hs|].
      split; [by constructor|done].
    + exists []. repeat split; [constructor|]. by intros ?? [= <- <-].
Qed.

Lemma strip_spec s :
  ∃ ws1 ws2, s = ws1 ++ strip s ++ ws2
    ∧ Forall (fun c => isspace c = true) ws1
    ∧ Forall (fun c => isspace c = true) ws2
    ∧ (∀ c r, strip s = c :: r → isspace c = false)
    ∧ (∀ c r, strip s = r ++ [c] → isspace c = false).
Proof.
  destruct (lstrip_spec s) as (ws1 & Hs & Hws1 & Hhd).
  destruct (lstrip_spec (rev (lstrip s))) as (ws2 & Hr & Hws2 & Htl).
  exists ws1, (rev ws2). unfold strip, rstrip.
  assert (Hl : lstrip s = rev (lstrip (rev (lstrip s))) ++ rev ws2).
  { rewrite <- rev_app_distr, <- Hr. by rewrite rev_involutive. }
  split; [by rewrite <- Hl|]. split; [done|]. split; [by apply Forall_rev|].
  split.
  - intros c r Hc.
    destruct (lstrip s) as [|c' r'] eqn:Hls; [by destruct r|].
    rewrite Hc in Hl. simpl in Hl. injection Hl as -> _. by eapply Hhd.
  - intros c r Hc. apply (Htl c (rev r)).
    rewrite <- (rev_involutive (lstrip _)), Hc, rev_app_distr. done.
Qed.

(** ** UTF-8 *)

Lemma bind_Return {A B} (a : A) (k : A → pyresult B) :
  (Return a ≫= k) = k a.
Proof. done. Qed.

Lemma bind_Raise {A B} e (k : A → pyresult B) :
  (Raise e ≫= k) = Raise e.
Proof. done. Qed.

Lemma utf8_encode_char_ascii c : c < 128 → utf8_encode_char c = Return [c].
Proof.
  intros H. unfold utf8_encode_char.
  by destruct (N.ltb_spec c 0x80) as [_|?]; [|lia].
Qed.

Lemma str_encode_utf8_ascii s :
  Forall (fun c => c < 128) s → str_encode_utf8 s = Return s.
Proof.
  induction 1 as [|c r Hc Hr IH]; simpl; [done|].
  by rewrite utf8_encode_char_ascii, bind_Return, IH by done.
Qed.

Lemma utf8_encode_char_encodable c :
  encodable c = true → ∃ bs, utf8_encode_char c = Return bs.
Proof.
  unfold encodable, utf8_encode_char. intros [Hs Hr]%andb_prop.
  apply negb_true_iff in Hs. rewrite Hs, Hr.
  repeat match goal with |- context [if ?b then _ else _] => destruct b end;
    by eexists.
Qed.

Lemma utf8_encode_char_raise c e :
  utf8_encode_char c = Raise e → encodable c = false.
Proof.
  intros H. destruct (encodable c) eqn:Hc; [|done].
  destruct (utf8_encode_char_encodable c Hc) as [bs Hbs]. congruence.
Qed.

Lemma str_encode_utf8_encodable s :
  Forall (fun c => encodable c = true) s →
  ∃ bs, str_encode_utf8 s = Return bs.
Proof.
  induction 1 as [|c r Hc Hr [bs IH]]; simpl; [by eexists|].
  destruct (utf8_encode_char_encodable c Hc) as [b ->].
  rewrite bind_Return, IH, bind_Return. by eexists.
Qed.

Lemma str_encode_utf8_raise s e :
  str_encode_utf8 s = Raise e → ∃ c, c ∈ s ∧ encodable c = false.
Proof.
  induction s as [|c r IH]; simpl; [done|].
  destruct (utf8_encode_char c) as [b|e'] eqn:Hc.
  - rewrite bind_Return. destruct (str_encode_utf8 r) as [bs|e'']; [done|].
    rewrite bind_Raise. intros [= ->].
    destruct IH as (x & Hx & Hbad); [done|]. exists x. split; [|done].
    by apply list_elem_of_further.
  - intros _. exists c. split; [apply list_elem_of_here|].
    by eapply utf8_encode_char_raise.
Qed.

Lemma bytes_decode_utf8_ascii bs :
  Forall (fun b => b < 128) bs → bytes_decode_utf8 bs = Return bs.
Proof.
  induction 1 as [|b r Hb Hr IH]; simpl; [done|].
  destruct (N.ltb_spec b 0x80) as [_|?]; [|lia]. by rewrite IH.
Qed.

(** ** Base64 *)

Lemma list_ind3 {A} (P : list A → Prop) :
  P [] → (∀ a, P [a]) → (∀ a b, P [a; b]) →
  (∀ a b c l, P l → P (a :: b :: c :: l)) →
  ∀ l, P l.
Proof.
  intros H0 H1 H2 H3. fix IH 1. intros [|a [|b [|c l]]].
  - exact H0.
  - exact (H1 a).
  - exact (H2 a b).
  - exact (H3 a b c l (IH l)).
Qed.

Lemma b64_char_ascii i : b64_char i < 128.
Proof.
  unfold b64_char.
  assert (H : forallb (fun c => c <? 128) (0 :: b64_alphabet) = true)
    by (by vm_compute).
  rewrite forallb_forall in H. apply N.ltb_lt, H.
  destruct (nth_in_or_default (N.to_nat i) b64_alphabet 0) as [Hin| ->];
    [by right|by left].
Qed.

Lemma b64encode_ascii bs : Forall (fun c => c < 128) (b64encode bs).
Proof.
  assert (He : EQUALS < 128) by done.
  induction bs as [|a|a b|a b c l IH] using list_ind3;
    cbn [b64encode]; repeat constructor; auto using b64_char_ascii.
Qed.

Lemma b64_index_char i : i < 64 → b64_index (b64_char i) = i.
Proof.
  intros H. apply N.eqb_eq. revert i H.
  apply (forallb_below (fun i => b64_index (b64_char i) =? i) 64).
  by vm_compute.
Qed.

Lemma b64_char_not_pad i : i < 64 → (b64_char i =? EQUALS) = false.
Proof.
  intros H. apply negb_true_iff. revert i H.
  apply (forallb_below (fun i => negb (b64_char i =? EQUALS)) 64).
  by vm_compute.
Qed.

(** The sextets of a group of octets and the way back, each checked on
    every octet value. *)

Local Ltac all_octets P :=
  intros; (apply N.ltb_lt || apply N.eqb_eq);
  first [ by apply (forallb_below P 256); [by vm_compute|]
        | by apply (forallb_below2 P 256 256); [by vm_compute| |] ].

Lemma sextet0_lt a : a < 256 → N.shiftr a 2 < 64.
Proof. all_octets (fun a => N.shiftr a 2 <? 64). Qed.

Lemma sextet1_lt a b :
  a < 256 → b < 256 →
  N.lor (N.shiftl (N.land a 3) 4) (N.shiftr b 4) < 64.
Proof.
  all_octets
    (fun a b => N.lor (N.shiftl (N.land a 3) 4) (N.shiftr b 4) <? 64).
Qed.

Lemma sextet1_last_lt a : a < 256 → N.shiftl (N.land a 3) 4 < 64.
Proof. all_octets (fun a => N.shiftl (N.land a 3) 4 <? 64). Qed.

Lemma sextet2_lt b c :
  b < 256 → c < 256 →
  N.lor (N.shiftl (N.land b 15) 2) (N.shiftr c 6) < 64.
Proof.
  all_octets
    (fun b c => N.lor (N.shiftl (N.land b 15) 2) (N.shiftr c 6) <? 64).
Qed.

Lemma sextet2_last_lt b : b < 256 → N.shiftl (N.land b 15) 2 < 64.
Proof. all_octets (fun b => N.shiftl (N.land b 15) 2 <? 64). Qed.

Lemma sextet3_lt c : c < 256 → N.land c 63 < 64.
Proof. all_octets (fun c => N.land c 63 <? 64). Qed.

Lemma octet0_back a b :
  a < 256 → b < 256 →
  N.lor (N.shiftl (N.shiftr a 2) 2)
        (N.shiftr (N.lor (N.shiftl (N.land a 3) 4) (N.shiftr b 4)) 4) = a.
Proof.
  all_octets (fun a b =>
    N.lor (N.shiftl (N.shiftr a 2) 2)
          (N.shiftr (N.lor (N.shiftl (N.land a 3) 4) (N.shiftr b 4)) 4)
    =? a).
Qed.

Lemma octet0_back_last a :
  a < 256 →
  N.lor (N.shiftl (N.shiftr a 2) 2)
        (N.shiftr (N.shiftl (N.land a 3) 4) 4) = a.
Proof.
  all_octets (fun a =>
    N.lor (N.shiftl (N.shiftr a 2) 2)
          (N.shiftr (N.shiftl (N.land a 3) 4) 4) =? a).
Qed.

Lemma sextet1_low a b :
  a < 256 → b < 256 →
  N.land (N.lor (N.shiftl (N.land a 3) 4) (N.shiftr b 4)) 15 = N.shiftr b 4.
Proof.
  all_octets (fun a b =>
    N.land (N.lor (N.shiftl (N.land a 3) 4) (N.shiftr b 4)) 15
    =? N.shiftr b 4).
Qed.

Lemma sextet2_high b c :
  b < 256 → c < 256 →
  N.shiftr (N.lor (N.shiftl (N.land b 15) 2) (N.shiftr c 6)) 2 = N.land b 15.
Proof.
  all_octets (fun b c =>
    N.shiftr (N.lor (N.shiftl (N.land b 15) 2) (N.shiftr c 6)) 2
    =? N.land b 15).
Qed.

Lemma sextet2_last_high b :
  b < 256 → N.shiftr (N.shiftl (N.land b 15) 2) 2 = N.land b 15.
Proof.
  all_octets (fun b =>
    N.shiftr (N.shiftl (N.land b 15) 2) 2 =? N.land b 15).
Qed.

Lemma octet1_join b :
  b < 256 → N.lor (N.shiftl (N.shiftr b 4) 4) (N.land b 15) = b.
Proof.
  all_octets (fun b => N.lor (N.shiftl (N.shiftr b 4) 4) (N.land b 15) =? b).
Qed.

Lemma octet2_back b c :
  b < 256 → c < 256 →
  N.lor (N.shiftl
           (N.land (N.lor (N.shiftl (N.land b 15) 2) (N.shiftr c 6)) 3) 6)
        (N.land c 63) = c.
Proof.
  all_octets (fun b c =>
    N.lor (N.shiftl
             (N.land (N.lor (N.shiftl (N.land b 15) 2) (N.shiftr c 6)) 3) 6)
          (N.land c 63) =? c).
Qed.

(** Decoding undoes encoding, on octets. *)
Lemma b64decode_b64encode bs :
  Forall (fun b => b < 256) bs → b64decode (b64encode bs) = bs.
Proof.
  induction bs as [|a|a b|a b c l IH] using list_ind3; intros H.
  - done.
  - apply Forall_cons in H as [Ha _]. simpl.
    rewrite !b64_index_char by auto using sextet0_lt, sextet1_last_lt.
    by rewrite octet0_back_last.
  - apply Forall_cons in H as [Ha [Hb _]%Forall_cons].
    cbn [b64encode b64decode].
    rewrite b64_char_not_pad by auto using sextet2_last_lt.
    rewrite N.eqb_refl.
    rewrite !b64_index_char
      by auto using sextet0_lt, sextet1_lt, sextet2_last_lt.
    rewrite octet0_back, sextet1_low, sextet2_last_high by done.
    by rewrite octet1_join.
  - apply Forall_cons in H as [Ha [Hb [Hc Hl]%Forall_cons]%Forall_cons].
    cbn [b64encode b64decode].
    rewrite !b64_char_not_pad by auto using sextet2_lt, sextet3_lt.
    rewrite !b64_index_char
      by auto using sextet0_lt, sextet1_lt, sextet2_lt, sextet3_lt.
    rewrite octet0_back, sextet1_low, sextet2_high, octet2_back by done.
    by rewrite octet1_join, IH.
Qed.

Lemma b64encode_inj bs1 bs2 :
  Forall (fun b => b < 256) bs1 → Forall (fun b => b < 256) bs2 →
  b64encode bs1 = b64encode bs2 → bs1 = bs2.
Proof.
  intros H1 H2 He.
  rewrite <- (b64decode_b64encode bs1 H1), <- (b64decode_b64encode bs2 H2).
  by rewrite He.
Qed.

(** ** The link generator *)

Local Ltac bools H :=
  rewrite ?orb_true_iff, ?andb_true_iff, ?negb_true_iff, ?orb_false_iff,
    ?andb_false_iff, ?N.leb_le, ?N.ltb_lt, ?N.eqb_eq, ?N.leb_gt, ?N.ltb_ge,
    ?N.eqb_neq in H.

(** The two outcomes of [generate_collecthw_url], by what [encode] does
    on the trimmed prefix. *)
Lemma generate_collecthw_url_cases code :
  match str_encode_utf8 (strip (before_first HYPHEN code)) with
  | Return raw =>
      generate_collecthw_url code = Return (URL_PREFIX ++ b64encode raw)
  | Raise _ => generate_collecthw_url code = Return LINK_ERROR
  end.
Proof.
  unfold generate_collecthw_url, generate_collecthw_url_body.
  rewrite index0_split, bind_Return.
  destruct (str_encode_utf8 _) as [raw|e]; [|done].
  rewrite bind_Return.
  by rewrite (bytes_decode_utf8_ascii _ (b64encode_ascii raw)).
Qed.

Lemma generate_collecthw_url_body_raise code e :
  generate_collecthw_url_body code = Raise e →
  str_encode_utf8 (strip (before_first HYPHEN code)) = Raise e.
Proof.
  unfold generate_collecthw_url_body.
  rewrite index0_split, bind_Return.
  destruct (str_encode_utf8 _) as [raw|e']; [|by rewrite bind_Raise].
  rewrite bind_Return.
  by rewrite (bytes_decode_utf8_ascii _ (b64encode_ascii raw)).
Qed.

Lemma url_not_error t : URL_PREFIX ++ t ≠ LINK_ERROR.
Proof.
  intros H. apply (f_equal (hd 0)) in H. vm_compute in H. discriminate.
Qed.

Lemma plain_char_encodable c : plain_char c = true → encodable c = true.
Proof.
  unfold plain_char, encodable, is_surrogate, isspace, HYPHEN. intros H.
  bools H. apply andb_true_iff. split.
  - apply negb_true_iff, andb_false_iff. rewrite N.leb_gt. left. lia.
  - apply N.leb_le. lia.
Qed.

Lemma upper_or_digit_alnum c :
  is_upper_or_digit c = true → is_ascii_alnum c = true.
Proof.
  unfold is_upper_or_digit, is_ascii_alnum. intros H. bools H.
  repeat (apply orb_true_iff; rewrite ?andb_true_iff, ?N.leb_le).
  rewrite orb_true_iff, ?andb_true_iff, ?N.leb_le. lia.
Qed.

Lemma alnum_facts c :
  is_ascii_alnum c = true → c < 128 ∧ isspace c = false ∧ c ≠ HYPHEN.
Proof.
  unfold is_ascii_alnum, isspace, HYPHEN. intros H. bools H.
  split; [lia|]. split; [|lia].
  repeat (apply orb_false_iff; split);
    rewrite ?andb_false_iff, ?N.leb_gt, ?N.eqb_neq; lia.
Qed.

Lemma code_shape_split m :
  code_shape m = true →
  ∃ a b, m = a ++ HYPHEN :: b ∧ length a = 5%nat ∧ length b = 4%nat
         ∧ Forall (fun c => is_upper_or_digit c = true) a
         ∧ Forall (fun c => is_upper_or_digit c = true) b.
Proof.
  destruct m as [|a [|b [|c [|d [|e [|h [|f [|g [|i [|j [|]]]]]]]]]]];
    try discriminate.
  cbn [code_shape forallb]. intros H. bools H.
  destruct H as [[(?&?&?&?&?&_) ->] (?&?&?&?&_)].
  exists [a; b; c; d; e], [f; g; i; j].
  repeat split; repeat constructor; done.
Qed.

Lemma code_shape_prefix m :
  code_shape m = true →
  before_first HYPHEN m = take 5 m
  ∧ Forall (fun c => is_ascii_alnum c = true) (before_first HYPHEN m).
Proof.
  intros (a & b & -> & Ha & Hb & Fa & Fb)%code_shape_split.
  assert (Hal : Forall (fun c => is_ascii_alnum c = true) a).
  { eapply Forall_impl; [done|]. apply upper_or_digit_alnum. }
  rewrite before_first_app.
  - split; [|done]. rewrite take_app_length'; done.
  - intros Hin. rewrite Forall_forall in Hal.
    by destruct (alnum_facts _ (Hal _ Hin)) as (_ & _ & ?).
Qed.

(** On an alphanumeric prefix the link is the template applied to the
    base64 text of the prefix itself. *)
Lemma generate_collecthw_url_alnum code :
  Forall (fun c => is_ascii_alnum c = true) (before_first HYPHEN code) →
  generate_collecthw_url code
  = Return (URL_PREFIX ++ b64encode (before_first HYPHEN code)).
Proof.
  intros H. pose proof (generate_collecthw_url_cases code) as Hc.
  rewrite strip_id in Hc.
  - rewrite str_encode_utf8_ascii in Hc; [done|].
    eapply Forall_impl; [done|]. intros c Hx. by apply alnum_facts.
  - eapply Forall_impl; [done|]. intros c Hx. by apply alnum_facts.
Qed.

Lemma generate_collecthw_url_alnum_inj c1 c2 :
  Forall (fun c => is_ascii_alnum c = true) (before_first HYPHEN c1) →
  Forall (fun c => is_ascii_alnum c = true) (before_first HYPHEN c2) →
  generate_collecthw_url c1 = generate_collecthw_url c2 →
  before_first HYPHEN c1 = before_first HYPHEN c2.
Proof.
  intros H1 H2. rewrite !generate_collecthw_url_alnum by done.
  intros [= He]. apply b64encode_inj; [| |done].
  - eapply Forall_impl; [exact H1|]. intros c Hx.
    destruct (alnum_facts c Hx). lia.
  - eapply Forall_impl; [exact H2|]. intros c Hx.
    destruct (alnum_facts c Hx). lia.
Qed.

(** C1, as stated, fails: a string whose prefix holds a lone surrogate
    has no UTF-8 form, and the result is the sentinel, which is the URL
    template applied to nothing. *)
Lemma generate_link_template_counterexample :
  ¬ (∀ code : pystr,
       ∃ encoded, generate_collecthw_url code = Return (URL_PREFIX ++ encoded)).
Proof.
  intros H. destruct (H [0xD800]) as [encoded He].
  change (generate_collecthw_url [0xD800]) with (Return LINK_ERROR) in He.
  apply (url_not_error encoded). congruence.
Qed.

(** C1, amended: whenever the whitespace-trimmed substring of the code
    before its first hyphen holds only code points that UTF-8 can carry
    (no surrogate), generate_link returns the URL template applied to the
    standard base64 text of that substring's UTF-8 octets; and
    generate_link("JBC19-N7C5") is
    "https://collecthw.com/hw/search/SkJDMTk=". *)
Theorem generate_link_template :
  (∀ code : pystr,
     Forall (fun c => encodable c = true) (strip (before_first HYPHEN code)) →
     ∃ raw,
       str_encode_utf8 (strip (before_first HYPHEN code)) = Return raw
       ∧ generate_collecthw_url code = Return (URL_PREFIX ++ b64encode raw))
  ∧ generate_collecthw_url (lit "JBC19-N7C5")
    = Return (lit "https://collecthw.com/hw/search/SkJDMTk=").
Proof.
  split; [|by vm_compute].
  intros code H. pose proof (generate_collecthw_url_cases code) as Hc.
  destruct (str_encode_utf8_encodable _ H) as [raw Hraw].
  rewrite Hraw in Hc. by exists raw.
Qed.

Lemma generate_link_template_witness :
  ∃ raw,
    str_encode_utf8 (strip (before_first HYPHEN (lit " JBC19 -N7C5-extra")))
    = Return raw
    ∧ generate_collecthw_url (lit " JBC19 -N7C5-extra")
      = Return (URL_PREFIX ++ b64encode raw).
Proof.
  apply (proj1 generate_link_template (lit " JBC19 -N7C5-extra")).
  apply forallb_Forall. by vm_compute.
Defined.

(** C5: generate_link always returns a string, never an exception; and
    when the body of its [try] raises, which only the encoding of the
    trimmed prefix can make it do, the string returned is exactly
    "Error generating link". *)
Theorem generate_link_never_raises (code : pystr) :
  ∃ s, generate_collecthw_url code = Return s
       ∧ (∀ e, generate_collecthw_url_body code = Raise e → s = LINK_ERROR)
       ∧ (∀ e, str_encode_utf8 (strip (before_first HYPHEN code)) = Raise e →
               s = LINK_ERROR).
Proof.
  pose proof (generate_collecthw_url_cases code) as Hc.
  assert (Hb : ∀ e, generate_collecthw_url_body code = Raise e →
                    generate_collecthw_url code = Return LINK_ERROR).
  { intros e He. unfold generate_collecthw_url. by rewrite He. }
  destruct (str_encode_utf8 _) as [raw|e] eqn:Henc.
  - exists (URL_PREFIX ++ b64encode raw). split; [done|]. split; [|done].
    intros e He. apply generate_collecthw_url_body_raise in He. congruence.
  - exists LINK_ERROR. by repeat split.
Qed.

Lemma generate_link_never_raises_witness :
  generate_collecthw_url [0xD800] = Return LINK_ERROR.
Proof.
  destruct (generate_link_never_raises [0xD800]) as (s & -> & _ & Hs).
  f_equal. apply (Hs (UnicodeEncodeError 0xD800)). reflexivity.
Defined.

(** C6: generate_link is a function of its input, and on codes of the
    fixed pattern the link determines, and is determined by, the prefix
    before the first hyphen: equal prefixes give equal links, and
    differing prefixes give differing links. *)
Theorem generate_link_injective (c1 c2 : pystr) :
  code_shape c1 = true → code_shape c2 = true →
  (c1 = c2 → generate_collecthw_url c1 = generate_collecthw_url c2)
  ∧ (before_first HYPHEN c1 = before_first HYPHEN c2 →
     generate_collecthw_url c1 = generate_collecthw_url c2)
  ∧ (before_first HYPHEN c1 ≠ before_first HYPHEN c2 →
     generate_collecthw_url c1 ≠ generate_collecthw_url c2).
Proof.
  intros [_ H1]%code_shape_prefix [_ H2]%code_shape_prefix.
  split; [by intros ->|]. split.
  - intros He. rewrite !generate_collecthw_url_alnum by done. by rewrite He.
  - intros Hne He. by apply Hne, generate_collecthw_url_alnum_inj.
Qed.

Lemma generate_link_injective_witness :
  generate_collecthw_url (lit "JBC19-N7C5")
  = generate_collecthw_url (lit "JBC19-X2Z1")
  ∧ generate_collecthw_url (lit "JBC19-N7C5")
    ≠ generate_collecthw_url (lit "HKJ88-N7C5").
Proof.
  split.
  - apply (generate_link_injective (lit "JBC19-N7C5") (lit "JBC19-X2Z1"));
      reflexivity.
  - apply (generate_link_injective (lit "JBC19-N7C5") (lit "HKJ88-N7C5"));
      [reflexivity|reflexivity|]. vm_compute. discriminate.
Defined.

(** C10: on a string of ASCII letters, digits, hyphens and blanks (so on
    every well-formed code, on a string with no hyphen and on the empty
    string) the [except] branch is not taken: the result is not
    "Error generating link" and begins with
    "https://collecthw.com/hw/search/". *)
Theorem generate_link_plain_no_error (code : pystr) :
  Forall (fun c => plain_char c = true) code →
  generate_collecthw_url code ≠ Return LINK_ERROR
  ∧ (∀ e, generate_collecthw_url_body code ≠ Raise e)
  ∧ ∃ t, generate_collecthw_url code = Return (URL_PREFIX ++ t).
Proof.
  intros H.
  assert (He : Forall (fun c => encodable c = true)
                 (strip (before_first HYPHEN code))).
  { apply Forall_strip, Forall_before_first.
    eapply Forall_impl; [exact H|]. apply plain_char_encodable. }
  destruct (str_encode_utf8_encodable _ He) as [raw Hraw].
  pose proof (generate_collecthw_url_cases code) as Hc. rewrite Hraw in Hc.
  split; [|split].
  - rewrite Hc. intros Hx. apply (url_not_error (b64encode raw)). congruence.
  - intros e Hb%generate_collecthw_url_body_raise. congruence.
  - by eexists.
Qed.

Lemma generate_link_plain_no_error_witness :
  (generate_collecthw_url (lit "JBC19-N7C5") ≠ Return LINK_ERROR
   ∧ (∀ e, generate_collecthw_url_body (lit "JBC19-N7C5") ≠ Raise e)
   ∧ ∃ t, generate_collecthw_url (lit "JBC19-N7C5") = Return (URL_PREFIX ++ t))
  ∧ (generate_collecthw_url (lit "no hyphen here") ≠ Return LINK_ERROR
     ∧ (∀ e, generate_collecthw_url_body (lit "no hyphen here") ≠ Raise e)
     ∧ ∃ t, generate_collecthw_url (lit "no hyphen here")
            = Return (URL_PREFIX ++ t))
  ∧ (generate_collecthw_url [] ≠ Return LINK_ERROR
     ∧ (∀ e, generate_collecthw_url_body [] ≠ Raise e)
     ∧ ∃ t, generate_collecthw_url [] = Return (URL_PREFIX ++ t)).
Proof.
  split; [|split].
  - apply (generate_link_plain_no_error (lit "JBC19-N7C5")).
    apply forallb_Forall. by vm_compute.
  - apply (generate_link_plain_no_error (lit "no hyphen here")).
    apply forallb_Forall. by vm_compute.
  - apply (generate_link_plain_no_error []). constructor.
Defined.

(** ** The order on strings *)

Lemma str_leb_refl a : str_leb a a = true.
Proof. induction a as [|x a IH]; simpl; [done|]. by rewrite N.ltb_irrefl. Qed.

Lemma str_leb_total a b : str_leb a b = true ∨ str_leb b a = true.
Proof.
  revert b. induction a as [|x a IH]; intros [|y b]; simpl; auto.
  destruct (N.ltb_spec x y), (N.ltb_spec y x); auto; lia.
Qed.

Lemma str_leb_trans a b c :
  str_leb a b = true → str_leb b c = true → str_leb a c = true.
Proof.
  revert b c. induction a as [|x a IH]; intros [|y b] [|z c]; simpl; try done.
  destruct (N.ltb_spec x y), (N.ltb_spec y x), (N.ltb_spec y z),
    (N.ltb_spec z y), (N.ltb_spec x z), (N.ltb_spec z x);
    try done; try lia; eauto.
Qed.

Lemma str_leb_antisym a b :
  str_leb a b = true → str_leb b a = true → a = b.
Proof.
  revert b. induction a as [|x a IH]; intros [|y b]; simpl; try done.
  destruct (N.ltb_spec x y), (N.ltb_spec y x); try done; try lia.
  intros ??. f_equal; [lia|auto].
Qed.

#[global] Instance str_le_total : Total str_le.
Proof. intros a b. apply str_leb_total. Qed.

#[global] Instance str_le_trans : Transitive str_le.
Proof. intros a b c. apply str_leb_trans. Qed.

#[global] Instance str_le_antisym : AntiSymm (=) str_le.
Proof. intros a b. apply str_leb_antisym. Qed.

(** ** Deduplication and sorting *)

Lemma sorted_Permutation xs : sorted xs ≡ₚ xs.
Proof. apply merge_sort_Permutation. Qed.

Lemma sorted_StronglySorted xs : StronglySorted str_le (sorted xs).
Proof. apply StronglySorted_merge_sort; apply _. Qed.

Lemma regex_hunt_Permutation text :
  regex_hunt text ≡ₚ elements (to_set (re_findall pattern text)).
Proof. apply sorted_Permutation. Qed.

Lemma elem_of_regex_hunt text c :
  c ∈ regex_hunt text ↔ c ∈ re_findall pattern text.
Proof.
  rewrite regex_hunt_Permutation. unfold to_set.
  by rewrite elem_of_elements, elem_of_list_to_set.
Qed.

Lemma regex_hunt_NoDup text : NoDup (regex_hunt text).
Proof. rewrite regex_hunt_Permutation. apply NoDup_elements. Qed.

(** The order in which the set enumerates its members does not show in
    the result: any duplicate-free enumeration of the matches sorts to
    the same list. *)
Lemma regex_hunt_any_enumeration text l :
  NoDup l → (∀ c, c ∈ l ↔ c ∈ re_findall pattern text) →
  sorted l = regex_hunt text.
Proof.
  intros Hnd Hl. apply (StronglySorted_unique str_le).
  - apply sorted_StronglySorted.
  - apply sorted_StronglySorted.
  - rewrite sorted_Permutation, regex_hunt_Permutation.
    apply NoDup_Permutation; [done|apply NoDup_elements|].
    intros c. rewrite Hl. unfold to_set.
    by rewrite elem_of_elements, elem_of_list_to_set.
Qed.

(** C2: whatever the image and the OCR text read from it, the codes
    that extraction returns hold no duplicate and are in ascending
    lexicographic order; an earlier code is strictly below a later
    one. *)
Theorem extract_codes_sorted_unique
    (Image : Type) (grayscale enhance_contrast : Image → Image)
    (image_to_string : Image → pystr) (image : Image) :
  let codes := extract_all_codes Image grayscale enhance_contrast
                 image_to_string image in
  NoDup codes
  ∧ Sorted str_le codes
  ∧ ∀ (i j : nat) (a b : pystr),
      codes !! i = Some a → codes !! j = Some b →
      (i < j)%nat → str_le a b ∧ a ≠ b.
Proof.
  intros codes. subst codes. unfold extract_all_codes.
  set (text := image_to_string (enhance_contrast (grayscale image))).
  pose proof (regex_hunt_NoDup text) as Hnd.
  pose proof (sorted_StronglySorted
                (to_list (to_set (re_findall pattern text)))) as Hs.
  change (sorted _) with (regex_hunt text) in Hs.
  split; [done|]. split; [by apply StronglySorted_Sorted|].
  intros i j a b Hi Hj Hij. split.
  - revert i j Hi Hj Hij. induction Hs as [|x l Hl IH Hx]; intros i j Hi Hj Hij.
    + done.
    + destruct j as [|j]; [lia|]. destruct i as [|i]; simpl in *.
      * injection Hi as ->. rewrite Forall_forall in Hx.
        by eapply Hx, list_elem_of_lookup_2.
      * apply NoDup_cons in Hnd as [_ Hnd]. eapply (IH Hnd i j); [done..|lia].
  - intros ->. pose proof (NoDup_lookup _ _ _ _ Hnd Hi Hj). lia.
Qed.

Lemma extract_codes_sorted_unique_witness :
  str_le (lit "HKJ88-X2Z1") (lit "JBC19-N7C5")
  ∧ lit "HKJ88-X2Z1" ≠ lit "JBC19-N7C5".
Proof.
  apply (proj2 (proj2 (extract_codes_sorted_unique pystr id id id
           (lit "JBC19-N7C5 random JBC19-N7C5 other HKJ88-X2Z1")))
           0%nat 1%nat); [by vm_compute|by vm_compute|lia].
Defined.

(** ** Matching the pattern *)

Lemma in_set_upper_alnum c : in_set UPPER_ALNUM c = is_upper_or_digit c.
Proof.
  unfold in_set, UPPER_ALNUM, is_upper_or_digit. simpl.
  by rewrite orb_false_r.
Qed.

Lemma match_set_spec ranges count s m rest :
  match_set ranges count s = Some (m, rest) ↔
  s = m ++ rest ∧ length m = count ∧ forallb (in_set ranges) m = true.
Proof.
  revert s m rest. induction count as [|k IH]; intros s m rest; simpl.
  - split.
    + by intros [= <- <-].
    + intros (-> & Hl & _). by destruct m.
  - destruct s as [|c r].
    + split; [done|]. intros (Hs & Hl & _). by destruct m.
    + destruct (in_set ranges c) eqn:Hc.
      * destruct (match_set ranges k r) as [[m' rest']|] eqn:Hm.
        -- apply IH in Hm as (-> & <- & Hf). split.
           ++ intros [= <- <-]. simpl. by rewrite Hc.
           ++ intros (Hs & Hl & Hf'). destruct m as [|x m]; [done|].
              simpl in *. injection Hs as <- Hs. injection Hl as Hl.
              apply andb_prop in Hf' as [_ Hf'].
              assert (Hk : match_set ranges (length m') (m' ++ rest')
                           = Some (m, rest)).
              { apply IH. by rewrite Hl. }
              assert (Hk' : match_set ranges (length m') (m' ++ rest')
                            = Some (m', rest')) by by apply IH.
              congruence.
        -- split; [done|]. intros (Hs & Hl & Hf).
           destruct m as [|x m]; [done|]. simpl in *.
           injection Hs as <- ->. injection Hl as <-.
           apply andb_prop in Hf as [_ Hf].
           assert (match_set ranges (length m) (m ++ rest) = Some (m, rest))
             by by apply IH.
           congruence.
      * split; [done|]. intros (Hs & Hl & Hf).
        destruct m as [|x m]; [done|]. simpl in *.
        injection Hs as <- _. apply andb_prop in Hf as [Hf _]. congruence.
Qed.

(** The pattern matches at the start of [s] exactly when the first ten
    characters have the shape of a code, and then it matches them. *)
Lemma match_pattern s :
  match_items pattern s
  = if code_shape (take 10 s) then Some (take 10 s, drop 10 s) else None.
Proof.
  destruct s as [|a [|b [|c [|d [|e [|h [|f [|g [|i [|j s]]]]]]]]]];
    cbn [code_shape take drop];
    unfold pattern; cbn [match_items match_set forallb];
    repeat (rewrite ?in_set_upper_alnum;
            match goal with
            | |- context [is_upper_or_digit ?x] =>
                destruct (is_upper_or_digit x)
            | |- context [?x =? HYPHEN] => destruct (x =? HYPHEN)
            end;
            cbn [andb app]; try reflexivity);
    reflexivity.
Qed.

Lemma upper_or_digit_not_hyphen x : is_upper_or_digit x = true → x ≠ HYPHEN.
Proof. intros H%upper_or_digit_alnum. by apply alnum_facts. Qed.

Lemma count_occ_upper_or_digit x l :
  is_upper_or_digit x = true →
  count_occ N.eq_dec (x :: l) HYPHEN = count_occ N.eq_dec l HYPHEN.
Proof.
  intros H%upper_or_digit_not_hyphen. by apply count_occ_cons_neq.
Qed.

Lemma code_shape_invariant m : code_shape m = true → code_invariant m.
Proof.
  destruct m as [|a [|b [|c [|d [|e [|h [|f [|g [|i [|j [|]]]]]]]]]]];
    try discriminate.
  cbn [code_shape forallb]. intros H. bools H.
  destruct H as [[(Ha&Hb&Hc&Hd&He&_) ->] (Hf&Hg&Hi&Hj&_)].
  split; [done|]. split; [|split; [done|]].
  - rewrite !count_occ_upper_or_digit by done.
    rewrite count_occ_cons_eq by done.
    by rewrite !count_occ_upper_or_digit by done.
  - intros n x Hn Hne.
    do 10 (destruct n as [|n]; [simpl in Hn; injection Hn as <-; try done|]).
    done.
Qed.

Lemma code_shape_length m : code_shape m = true → length m = 10%nat.
Proof. intros H. by apply code_shape_invariant in H as [? _]. Qed.

(** ** The scan *)

Lemma scan_nil p fuel pos : scan p fuel pos [] = [].
Proof. by destruct fuel. Qed.

Lemma scan_step fuel pos c r :
  scan pattern (S fuel) pos (c :: r)
  = if code_shape (take 10 (c :: r))
    then (pos, take 10 (c :: r))
         :: scan pattern fuel (pos + 10) (drop 10 (c :: r))
    else scan pattern fuel (S pos) r.
Proof.
  cbn [scan]. rewrite match_pattern.
  destruct (code_shape (take 10 (c :: r))) eqn:Hs; [|done].
  pose proof (code_shape_length _ Hs) as Hl. rewrite Hl.
  by destruct (take 10 (c :: r)).
Qed.

Lemma occurs_at_nil q : ¬ occurs_at [] q.
Proof. unfold occurs_at. by rewrite drop_nil. Qed.

(** Every reported match is an occurrence of the shape, at the offset
    reported. *)
Lemma scan_sound fuel pos s p m :
  (p, m) ∈ scan pattern fuel pos s →
  (pos ≤ p)%nat ∧ m = take 10 (drop (p - pos) s) ∧ code_shape m = true.
Proof.
  revert pos s. induction fuel as [|fuel IH]; intros pos s; [by intros ?%elem_of_nil|].
  destruct s as [|c r]; [by intros ?%elem_of_nil|].
  rewrite scan_step. destruct (code_shape (take 10 (c :: r))) eqn:Hs.
  - intros [[= -> ->]|Hin]%elem_of_cons.
    + by rewrite Nat.sub_diag.
    + apply IH in Hin as (Hp & -> & Hm). split; [lia|]. split; [|done].
      rewrite drop_drop. do 2 f_equal. lia.
  - intros (Hp & -> & Hm)%IH. split; [lia|]. split; [|done].
    replace (p - pos)%nat with (S (p - S pos)) by lia. done.
Qed.

(** Matches are reported left to right and do not overlap. *)
Lemma scan_ordered fuel pos s :
  Forall (fun x => (pos ≤ x.1)%nat) (scan pattern fuel pos s)
  ∧ StronglySorted (fun x y => (x.1 + 10 ≤ y.1)%nat) (scan pattern fuel pos s).
Proof.
  revert pos s. induction fuel as [|fuel IH]; intros pos s;
    [split; constructor|].
  destruct s as [|c r]; [split; constructor|].
  rewrite scan_step. destruct (code_shape (take 10 (c :: r))).
  - destruct (IH (pos + 10)%nat (drop 10 (c :: r))) as [Hf Hs]. split.
    + constructor; [done|]. eapply Forall_impl; [exact Hf|]. simpl. lia.
    + by constructor.
  - destruct (IH (S pos) r) as [Hf Hs]. split; [|done].
    eapply Forall_impl; [exact Hf|]. simpl. lia.
Qed.

(** No occurrence is missed: each one is reported, or starts inside a
    reported match that begins before it. *)
Lemma scan_complete fuel pos s q :
  (length s ≤ fuel)%nat → occurs_at s q →
  ∃ p m, (p, m) ∈ scan pattern fuel pos s ∧ (p ≤ pos + q < p + 10)%nat.
Proof.
  revert pos s q. induction fuel as [|fuel IH]; intros pos s q Hl Hq.
  { destruct s; [by apply occurs_at_nil in Hq|simpl in Hl; lia]. }
  destruct s as [|c r]; [by apply occurs_at_nil in Hq|].
  rewrite scan_step. destruct (code_shape (take 10 (c :: r))) eqn:Hs.
  - destruct (decide (q < 10)%nat) as [Hlt|Hge].
    + eexists _, _. split; [apply list_elem_of_here|lia].
    + pose proof (code_shape_length _ Hs) as Hlen.
      rewrite length_take in Hlen.
      destruct (IH (pos + 10)%nat (drop 10 (c :: r)) (q - 10)%nat)
        as (p & m & Hin & Hp).
      * rewrite length_drop. simpl in *. lia.
      * unfold occurs_at in *. rewrite drop_drop.
        by replace (10 + (q - 10))%nat with q by lia.
      * exists p, m. split; [by apply list_elem_of_further|lia].
  - destruct q as [|q]; [unfold occurs_at in Hq; rewrite drop_0 in Hq; congruence|].
    destruct (IH (S pos) r q) as (p & m & Hin & Hp).
    + simpl in Hl. lia.
    + done.
    + exists p, m. split; [done|lia].
Qed.

Lemma elem_of_re_findall p text c :
  c ∈ re_findall p text ↔ ∃ pos : nat, (pos, c) ∈ re_finditer p text.
Proof.
  unfold re_findall. rewrite list_elem_of_In, in_map_iff. split.
  - intros ([pos m] & <- & Hin). exists pos. by apply list_elem_of_In.
  - intros (pos & Hin). exists (pos, c). split; [done|].
    by apply list_elem_of_In.
Qed.

Lemma re_finditer_sound text p m :
  (p, m) ∈ re_finditer pattern text →
  m = take 10 (drop p text) ∧ occurs_at text p.
Proof.
  intros (_ & Hm & Hs)%scan_sound. rewrite Nat.sub_0_r in Hm.
  split; [done|]. unfold occurs_at. by rewrite <- Hm.
Qed.

Lemma re_finditer_complete text q :
  occurs_at text q →
  ∃ p m, (p, m) ∈ re_finditer pattern text ∧ (p ≤ q < p + 10)%nat.
Proof.
  intros Hq. by apply (scan_complete (length text) 0 text q).
Qed.

Lemma regex_hunt_shape text c : c ∈ regex_hunt text → code_shape c = true.
Proof.
  rewrite elem_of_regex_hunt, elem_of_re_findall. intros (p & Hin).
  by apply scan_sound in Hin as (_ & _ & Hs).
Qed.

(** C3: whatever the image, on the OCR text read from it the pattern
    scan of extraction reports only occurrences of the shape, five
    upper-case letters or digits, a hyphen, four upper-case letters or
    digits, left to right and without overlap; it misses no occurrence,
    each one being reported or starting inside a reported one, and an
    occurrence that no earlier occurrence overlaps is always reported;
    the codes that extraction returns are exactly the reported texts, so
    every reported text is among them.  When the OCR text is that of the
    scenario, extraction returns HKJ88-X2Z1 and JBC19-N7C5. *)
Theorem pattern_scan_finds_all
    (Image : Type) (grayscale enhance_contrast : Image → Image)
    (image_to_string : Image → pystr) (image : Image) :
  let text := image_to_string (enhance_contrast (grayscale image)) in
  let codes := extract_all_codes Image grayscale enhance_contrast
                 image_to_string image in
  (∀ (p : nat) (m : pystr),
     (p, m) ∈ re_finditer pattern text →
     m = take 10 (drop p text) ∧ occurs_at text p)
  ∧ StronglySorted (fun x y => (x.1 + 10 ≤ y.1)%nat)
      (re_finditer pattern text)
  ∧ (∀ q : nat,
       occurs_at text q →
       ∃ (p : nat) (m : pystr),
         (p, m) ∈ re_finditer pattern text ∧ (p ≤ q < p + 10)%nat
         ∧ m ∈ codes)
  ∧ (∀ q : nat,
       occurs_at text q →
       (∀ q' : nat, occurs_at text q' → (q' < q)%nat → (q' + 10 ≤ q)%nat) →
       (q, take 10 (drop q text)) ∈ re_finditer pattern text
       ∧ take 10 (drop q text) ∈ codes)
  ∧ (∀ c : pystr,
       c ∈ codes ↔ ∃ p : nat, (p, c) ∈ re_finditer pattern text)
  ∧ (text = lit "JBC19-N7C5 random JBC19-N7C5 other HKJ88-X2Z1" →
     codes = [lit "HKJ88-X2Z1"; lit "JBC19-N7C5"]).
Proof.
  intros text codes.
  assert (Hcodes : ∀ c : pystr,
            c ∈ codes ↔ ∃ p : nat, (p, c) ∈ re_finditer pattern text).
  { intros c. subst codes. unfold extract_all_codes. fold text.
    by rewrite elem_of_regex_hunt, elem_of_re_findall. }
  split; [intros p m; apply re_finditer_sound|].
  split; [apply scan_ordered|].
  split; [|split; [|split; [done|]]].
  - intros q Hq.
    destruct (re_finditer_complete text q Hq) as (p & m & Hin & Hp).
    exists p, m. split; [done|]. split; [done|]. apply Hcodes. by exists p.
  - intros q Hq Hfree.
    destruct (re_finditer_complete text q Hq) as (p & m & Hin & Hp).
    destruct (re_finditer_sound text p m Hin) as [-> Hocc].
    assert (p = q) as ->.
    { destruct (decide (p = q)) as [|Hne]; [done|].
      assert (p < q)%nat as Hlt by lia.
      specialize (Hfree p Hocc Hlt). lia. }
    split; [done|]. apply Hcodes. by exists q.
  - intros Ht. subst codes. unfold extract_all_codes. fold text.
    rewrite Ht. by vm_compute.
Qed.

Lemma pattern_scan_finds_all_witness :
  ((17%nat, lit "ABCDE-1234")
   ∈ re_finditer pattern (lit "AAAAA-BBBBB-CCCC ABCDE-1234")
   ∧ lit "ABCDE-1234"
     ∈ extract_all_codes pystr id id id (lit "AAAAA-BBBBB-CCCC ABCDE-1234"))
  ∧ extract_all_codes pystr id id id
      (lit "JBC19-N7C5 random JBC19-N7C5 other HKJ88-X2Z1")
    = [lit "HKJ88-X2Z1"; lit "JBC19-N7C5"].
Proof.
  split.
  - refine (proj1 (proj2 (proj2 (proj2 (pattern_scan_finds_all pystr
              id id id (lit "AAAAA-BBBBB-CCCC ABCDE-1234")))))
              17%nat _ _).
    + by vm_compute.
    + intros q' Hq' Hlt.
      do 17 (destruct q' as [|q']; [try lia; by vm_compute in Hq'|]).
      lia.
  - exact (proj2 (proj2 (proj2 (proj2 (proj2 (pattern_scan_finds_all pystr
             id id id
             (lit "JBC19-N7C5 random JBC19-N7C5 other HKJ88-X2Z1"))))))
             eq_refl).
Defined.

(** C4: every code that extraction returns, whatever the image and the
    OCR engine, has length 10, holds exactly one hyphen, has that hyphen
    at position 5, and every other character of it is an upper-case
    letter or a digit. *)
Theorem extracted_code_invariant
    (Image : Type) (grayscale enhance_contrast : Image → Image)
    (image_to_string : Image → pystr) (image : Image) (c : pystr) :
  c ∈ extract_all_codes Image grayscale enhance_contrast image_to_string image →
  code_invariant c.
Proof.
  unfold extract_all_codes. intros Hc%regex_hunt_shape.
  by apply code_shape_invariant.
Qed.

Lemma extracted_code_invariant_witness :
  code_invariant (lit "HKJ88-X2Z1").
Proof.
  apply (extracted_code_invariant pystr id id id
           (lit "JBC19-N7C5 random JBC19-N7C5 other HKJ88-X2Z1")).
  apply list_elem_of_In. by vm_compute; left.
Defined.

(** ** The batch session *)

Lemma generate_collecthw_url_returns code :
  ∃ s, generate_collecthw_url code = Return s.
Proof.
  pose proof (generate_collecthw_url_cases code) as H.
  destruct (str_encode_utf8 _); eauto.
Qed.

Lemma pairs_built_from_app codes1 codes2 batch1 batch2 :
  pairs_built_from codes1 batch1 → pairs_built_from codes2 batch2 →
  pairs_built_from (codes1 ++ codes2) (batch1 ++ batch2).
Proof. apply Forall2_app. Qed.

(** The loop of the scan handler appends one record per code to what it
    was given. *)
Lemma build_results_spec codes results :
  ∃ new, build_results codes results = Return (results ++ new)
         ∧ pairs_built_from codes new.
Proof.
  revert results. induction codes as [|c codes IH]; intros results; simpl.
  - exists []. split; [by rewrite app_nil_r|constructor].
  - destruct (generate_collecthw_url_returns c) as [l Hl].
    rewrite Hl, bind_Return.
    destruct (IH (results ++ [Car c l])) as (new & -> & Hnew).
    exists (Car c l :: new). split.
    + by rewrite <- app_assoc.
    + by constructor.
Qed.

Lemma link_formula_of_hyperlink target :
  link_formula_of target = hyperlink_formula target (lit "ID This Car").
Proof.
  unfold link_formula_of, hyperlink_formula, quoted.
  by rewrite <- !app_assoc.
Qed.

(** The loop of [save_batch_to_sheet] appends one row per record. *)
Lemma build_rows_from rows car_list :
  fold_left
    (fun rows_to_add car =>
       let link_formula := link_formula_of (link car) in
       let row := [code car; link_formula; lit "Unverified"] in
       rows_to_add ++ [row])
    car_list rows
  = rows ++ map row_of car_list.
Proof.
  revert rows. induction car_list as [|r car_list IH]; intros rows; simpl.
  - by rewrite app_nil_r.
  - rewrite IH, <- app_assoc. unfold row_of.
    by rewrite link_formula_of_hyperlink.
Qed.

Lemma build_rows_map car_list : build_rows car_list = map row_of car_list.
Proof. unfold build_rows. by rewrite build_rows_from. Qed.

(** What [save_batch_to_sheet] answers, by what the worksheet does. *)
Lemma save_batch_to_sheet_cases conn exn_text car_list :
  match conn with
  | None =>
      save_batch_to_sheet conn exn_text car_list
      = ((false,
          [0x274C] ++ lit " Error: Could not connect to Google Sheet."), [])
  | Some sheet =>
      match append_rows sheet (map row_of car_list) (lit "USER_ENTERED") with
      | Return _ =>
          save_batch_to_sheet conn exn_text car_list
          = ((true,
              [0x2705] ++ lit " Added " ++ str_of_nat (length car_list)
              ++ lit " cars to the sheet!"),
             [AppendRows (map row_of car_list) (lit "USER_ENTERED")])
      | Raise e =>
          save_batch_to_sheet conn exn_text car_list
          = ((false, [0x274C] ++ lit " Cloud Error: " ++ exn_text e),
             [AppendRows (map row_of car_list) (lit "USER_ENTERED")])
      end
  end.
Proof.
  unfold save_batch_to_sheet. destruct conn as [sheet|]; [|done].
  rewrite build_rows_map, length_map.
  by destruct (append_rows sheet _ _).
Qed.

(** C7: from a state whose batch is not empty the save handler always
    completes; when the worksheet is reached and takes the rows the batch
    is empty afterwards, and when the worksheet is not reached or the
    write raises the state afterwards is the state before, so the batch
    and its count are unchanged. *)
Theorem save_all_transition
    (conn : option worksheet) (exn_text : pyexn → pystr)
    (st : session_state) :
  found_cars st ≠ [] →
  (∃ st' shown calls, save_all conn exn_text st = Some (st', shown, calls))
  ∧ (∀ sheet u,
       conn = Some sheet →
       append_rows sheet (build_rows (found_cars st)) (lit "USER_ENTERED")
       = Return u →
       ∃ shown calls,
         save_all conn exn_text st = Some (Session [], shown, calls))
  ∧ (conn = None →
     ∃ shown, save_all conn exn_text st = Some (st, shown, []))
  ∧ (∀ sheet e,
       conn = Some sheet →
       append_rows sheet (build_rows (found_cars st)) (lit "USER_ENTERED")
       = Raise e →
       ∃ shown calls, save_all conn exn_text st = Some (st, shown, calls))
  ∧ (∀ st' shown calls,
       save_all conn exn_text st = Some (st', shown, calls) →
       (save_batch_to_sheet conn exn_text (found_cars st)).1.1 = true
       ∧ found_cars st' = []
       ∨ (save_batch_to_sheet conn exn_text (found_cars st)).1.1 = false
         ∧ st' = st
         ∧ length (found_cars st') = length (found_cars st)).
Proof.
  intros Hne. unfold save_all.
  destruct (found_cars st) as [|r batch] eqn:Hb; [done|].
  rewrite <- Hb. clear Hne.
  pose proof (save_batch_to_sheet_cases conn exn_text (found_cars st)) as Hc.
  rewrite build_rows_map.
  destruct conn as [sheet|].
  - destruct (append_rows sheet _ _) as [u|e] eqn:Ha; rewrite Hc; simpl.
    + split; [eauto|]. split; [eauto|]. split; [done|].
      split; [intros ? ? [= <-] ?; congruence|].
      intros st' shown calls [= <- _ _]. by left.
    + split; [eauto|]. split; [intros ? ? [= <-] ?; congruence|]. split; [done|].
      split; [eauto|].
      intros st' shown calls [= <- _ _]. by right.
  - rewrite Hc; simpl. split; [eauto|]. split; [done|]. split; [eauto|].
    split; [done|].
    intros st' shown calls [= <- _ _]. by right.
Qed.

Lemma save_all_transition_witness :
  let batch := [Car (lit "JBC19-N7C5")
                  (lit "https://collecthw.com/hw/search/SkJDMTk=")] in
  (∃ shown calls,
     save_all (Some (Worksheet (fun _ _ => Return tt))) (fun _ => [])
       (Session batch)
     = Some (Session [], shown, calls))
  ∧ (∃ shown calls,
       save_all (Some (Worksheet (fun _ _ => Raise (CloudFault (lit "quota")))))
         (fun _ => []) (Session batch)
       = Some (Session batch, shown, calls)).
Proof.
  intros batch. split.
  - apply (proj1 (proj2 (save_all_transition
             (Some (Worksheet (fun _ _ => Return tt))) (fun _ => [])
             (Session batch) ltac:(discriminate)))
             (Worksheet (fun _ _ => Return tt)) tt eq_refl eq_refl).
  - apply (proj1 (proj2 (proj2 (proj2 (save_all_transition
             (Some (Worksheet
                      (fun _ _ => Raise (CloudFault (lit "quota")))))
             (fun _ => []) (Session batch) ltac:(discriminate)))))
             (Worksheet (fun _ _ => Raise (CloudFault (lit "quota"))))
             (CloudFault (lit "quota")) eq_refl eq_refl).
Defined.

(** C8, as stated, fails: with a batch in the session and an image in
    which no code is read, the scan handler leaves the batch as it was,
    which is not the empty list of pairs built from the empty result. *)
Lemma scan_replaces_batch_counterexample :
  ¬ (∀ (Image : Type) (grayscale enhance_contrast : Image → Image)
       (image_to_string : Image → pystr) (image : Image)
       (st : session_state),
       ∃ st' shown,
         scan_stack Image grayscale enhance_contrast image_to_string image st
         = Return (st', shown)
         ∧ pairs_built_from
             (extract_all_codes Image grayscale enhance_contrast
                image_to_string image)
             (found_cars st')).
Proof.
  intros H.
  destruct (H pystr id id id []
              (Session [Car (lit "JBC19-N7C5")
                          (lit "https://collecthw.com/hw/search/SkJDMTk=")]))
    as (st' & shown & Hs & Hp).
  apply Forall2_length in Hp.
  vm_compute in Hs. injection Hs as <- _.
  by vm_compute in Hp.
Qed.

(** C8, amended: whatever the batch was, when extraction returns at least
    one code the scan handler replaces the batch by the (code, link)
    pairs built from the extracted codes, one per code and in their
    order, and nothing of the batch before is kept; when extraction
    returns no code the handler warns and leaves the state as it was. *)
Theorem scan_replaces_batch
    (Image : Type) (grayscale enhance_contrast : Image → Image)
    (image_to_string : Image → pystr) (image : Image)
    (st : session_state) :
  let codes := extract_all_codes Image grayscale enhance_contrast
                 image_to_string image in
  (codes ≠ [] →
   ∃ results shown,
     scan_stack Image grayscale enhance_contrast image_to_string image st
     = Return (Session results, shown)
     ∧ pairs_built_from codes results
     ∧ length results = length codes)
  ∧ (codes = [] →
     ∃ shown,
       scan_stack Image grayscale enhance_contrast image_to_string image st
       = Return (st, shown)).
Proof.
  intros codes. unfold scan_stack. fold codes.
  destruct codes as [|c codes'] eqn:Hc.
  - split; [done|]. eauto.
  - split; [|done]. intros _.
    destruct (build_results_spec (c :: codes') []) as (new & -> & Hnew).
    pose proof (Forall2_length _ _ _ Hnew) as Hlen.
    rewrite bind_Return. exists new. eexists. split; [done|].
    split; [done|]. by rewrite <- Hlen.
Qed.

Lemma scan_replaces_batch_witness :
  ∃ results shown,
    scan_stack pystr id id id
      (lit "JBC19-N7C5 random JBC19-N7C5 other HKJ88-X2Z1")
      (Session [Car (lit "AAAAA-0000") (lit "unsaved")])
    = Return (Session results, shown)
    ∧ pairs_built_from [lit "HKJ88-X2Z1"; lit "JBC19-N7C5"] results
    ∧ length results = 2%nat.
Proof.
  apply (proj1 (scan_replaces_batch pystr id id id
                  (lit "JBC19-N7C5 random JBC19-N7C5 other HKJ88-X2Z1")
                  (Session [Car (lit "AAAAA-0000") (lit "unsaved")]))).
  by vm_compute.
Defined.

Lemma lookup_map_row_of car_list (i : nat) (r : car) :
  car_list !! i = Some r → map row_of car_list !! i = Some (row_of r).
Proof.
  revert i. induction car_list as [|x car_list IH]; intros [|i]; simpl;
    try done.
  - by intros [= ->].
  - apply IH.
Qed.

(** C9: every call that [save_batch_to_sheet] makes on the worksheet
    hands it one row per record of the batch, in the order of the batch;
    the row of a record is its code, the hyperlink formula that targets
    its link under the label ID This Car, and the status Unverified.
    When the worksheet is reached there is exactly one such call. *)
Theorem rows_handed_to_sheet
    (conn : option worksheet) (exn_text : pyexn → pystr)
    (car_list : list car) :
  (∀ rows opt,
     AppendRows rows opt ∈ (save_batch_to_sheet conn exn_text car_list).2 →
     length rows = length car_list
     ∧ (∀ (i : nat) (r : car),
          car_list !! i = Some r →
          rows !! i
          = Some [code r;
                  lit "=HYPERLINK(" ++ quoted (link r) ++ lit ", "
                  ++ quoted (lit "ID This Car") ++ lit ")";
                  lit "Unverified"])
     ∧ rows = map row_of car_list
     ∧ opt = lit "USER_ENTERED")
  ∧ (∀ sheet,
       conn = Some sheet →
       (save_batch_to_sheet conn exn_text car_list).2
       = [AppendRows (map row_of car_list) (lit "USER_ENTERED")]).
Proof.
  pose proof (save_batch_to_sheet_cases conn exn_text car_list) as Hc.
  assert (Hcalls : ∀ sheet, conn = Some sheet →
            (save_batch_to_sheet conn exn_text car_list).2
            = [AppendRows (map row_of car_list) (lit "USER_ENTERED")]).
  { intros sheet ->. by destruct (append_rows sheet _ _); rewrite Hc. }
  split; [|done].
  intros rows opt Hin. destruct conn as [sheet|].
  - rewrite (Hcalls sheet eq_refl) in Hin.
    apply list_elem_of_singleton in Hin as [= -> ->].
    split; [by rewrite length_map|]. split; [|done].
    intros i r Hi. by apply lookup_map_row_of.
  - rewrite Hc in Hin. by apply elem_of_nil in Hin.
Qed.

Lemma rows_handed_to_sheet_witness :
  let batch := [Car (lit "HKJ88-X2Z1")
                  (lit "https://collecthw.com/hw/search/SEtKODg=");
                Car (lit "JBC19-N7C5")
                  (lit "https://collecthw.com/hw/search/SkJDMTk=")] in
  length (map row_of batch) = 2%nat
  ∧ map row_of batch !! 1%nat
    = Some [lit "JBC19-N7C5";
            lit "=HYPERLINK("
            ++ quoted (lit "https://collecthw.com/hw/search/SkJDMTk=")
            ++ lit ", " ++ quoted (lit "ID This Car") ++ lit ")";
            lit "Unverified"].
Proof.
  intros batch.
  destruct (proj1 (rows_handed_to_sheet
                     (Some (Worksheet (fun _ _ => Return tt))) (fun _ => [])
                     batch)
              (map row_of batch) (lit "USER_ENTERED"))
    as (Hlen & Hrow & _).
  - apply list_elem_of_here.
  - split; [exact Hlen|].
    exact (Hrow 1%nat
             (Car (lit "JBC19-N7C5")
                (lit "https://collecthw.com/hw/search/SkJDMTk="))
             eq_refl).
Defined.

(** * Further properties of the link generator *)

Lemma lor_octets a b : a < 256 → b < 256 → N.lor a b < 256.
Proof. all_octets (fun a b => N.lor a b <? 256). Qed.

Lemma cont_octet x : cont x < 256.
Proof.
  unfold cont. apply lor_octets; [done|].
  change 0x3F with (N.ones 6). rewrite N.land_ones.
  pose proof (N.mod_lt x (2 ^ 6)). change (2 ^ 6) with 64 in *. lia.
Qed.

Lemma shiftr_bound c k m : c < m * 2 ^ k → N.shiftr c k < m.
Proof.
  intros H. rewrite N.shiftr_div_pow2.
  apply N.Div0.div_lt_upper_bound. lia.
Qed.

Lemma utf8_encode_char_octets c bs :
  utf8_encode_char c = Return bs → Forall (fun b => b < 256) bs.
Proof.
  unfold utf8_encode_char.
  destruct (N.ltb_spec c 0x80); [intros [= <-]; repeat constructor; lia|].
  destruct (N.ltb_spec c 0x800).
  { intros [= <-]. repeat constructor; [|apply cont_octet].
    apply lor_octets; [done|]. apply N.lt_trans with 32; [|done].
    by apply shiftr_bound. }
  destruct (is_surrogate c); [done|].
  destruct (N.ltb_spec c 0x10000).
  { intros [= <-]. repeat constructor; try apply cont_octet.
    apply lor_octets; [done|]. apply N.lt_trans with 16; [|done].
    by apply shiftr_bound. }
  destruct (N.leb_spec c 0x10FFFF); [|done].
  intros [= <-]. repeat constructor; try apply cont_octet.
  apply lor_octets; [done|]. apply N.lt_trans with 5; [|done].
  apply shiftr_bound. change (5 * 2 ^ 18) with 1310720. lia.
Qed.

Lemma str_encode_utf8_octets s raw :
  str_encode_utf8 s = Return raw → Forall (fun b => b < 256) raw.
Proof.
  revert raw. induction s as [|c r IH]; intros raw; simpl.
  - intros [= <-]. constructor.
  - destruct (utf8_encode_char c) as [bs|e] eqn:Hc; [|done].
    rewrite bind_Return.
    destruct (str_encode_utf8 r) as [rest|e]; [|done].
    rewrite bind_Return. intros [= <-]. apply Forall_app. split.
    + by eapply utf8_encode_char_octets.
    + by apply IH.
Qed.

Lemma utf8_encode_char_return c bs :
  utf8_encode_char c = Return bs → encodable c = true.
Proof.
  unfold utf8_encode_char, encodable, is_surrogate.
  destruct (N.ltb_spec c 0x80).
  { intros _. apply andb_true_iff. split.
    - apply negb_true_iff, andb_false_iff. left. apply N.leb_gt. lia.
    - apply N.leb_le. lia. }
  destruct (N.ltb_spec c 0x800).
  { intros _. apply andb_true_iff. split.
    - apply negb_true_iff, andb_false_iff. left. apply N.leb_gt. lia.
    - apply N.leb_le. lia. }
  destruct ((0xD800 <=? c) && (c <=? 0xDFFF)); [done|].
  destruct (N.ltb_spec c 0x10000).
  { intros _. apply andb_true_iff. split; [done|]. apply N.leb_le. lia. }
  by destruct (c <=? 0x10FFFF).
Qed.

Lemma str_encode_utf8_return s raw :
  str_encode_utf8 s = Return raw → Forall (fun c => encodable c = true) s.
Proof.
  revert raw. induction s as [|c r IH]; intros raw; simpl; [by constructor|].
  destruct (utf8_encode_char c) as [bs|e] eqn:Hc; [|done].
  rewrite bind_Return.
  destruct (str_encode_utf8 r) as [rest|e]; [|done].
  intros _. constructor; [by eapply utf8_encode_char_return|by eapply IH].
Qed.

(** X1: The sentinel is returned exactly when the trimmed prefix holds a
    code point that UTF-8 cannot carry; in every other case the link is
    the URL of the base64 text of the prefix. *)
Theorem link_error_iff_unencodable (code : pystr) :
  (generate_collecthw_url code = Return LINK_ERROR
   ↔ ∃ c, c ∈ strip (before_first HYPHEN code) ∧ encodable c = false)
  ∧ (generate_collecthw_url code ≠ Return LINK_ERROR
     ↔ ∃ raw, str_encode_utf8 (strip (before_first HYPHEN code)) = Return raw
              ∧ generate_collecthw_url code
                = Return (URL_PREFIX ++ b64encode raw)).
Proof.
  pose proof (generate_collecthw_url_cases code) as Hc.
  destruct (str_encode_utf8 (strip (before_first HYPHEN code)))
    as [raw|e] eqn:He.
  - assert (Hne : generate_collecthw_url code ≠ Return LINK_ERROR).
    { rewrite Hc. intros Hx. apply (url_not_error (b64encode raw)).
      congruence. }
    split; split.
    + done.
    + intros (c & Hin & Hbad). apply str_encode_utf8_return in He.
      rewrite Forall_forall in He. specialize (He c Hin). congruence.
    + intros _. by exists raw.
    + done.
  - split; split.
    + intros _. by eapply str_encode_utf8_raise.
    + done.
    + done.
    + by intros (raw & [=] & _).
Qed.

Lemma link_error_iff_unencodable_witness :
  generate_collecthw_url (lit "AB" ++ [0xDFFF] ++ lit " -N7C5")
  = Return LINK_ERROR.
Proof.
  apply (proj1 (link_error_iff_unencodable
                  (lit "AB" ++ [0xDFFF] ++ lit " -N7C5"))).
  exists 0xDFFF. split; [|done].
  apply list_elem_of_In. vm_compute. right. right. by left.
Defined.

(** X2: From a link that is not the sentinel the prefix can be read back:
    the text after the 32 characters of the URL prefix, decoded from
    base64, is the UTF-8 form of the trimmed prefix of the code. *)
Theorem link_decodes_to_prefix (code url : pystr) :
  generate_collecthw_url code = Return url → url ≠ LINK_ERROR →
  take 32 url = URL_PREFIX
  ∧ str_encode_utf8 (strip (before_first HYPHEN code))
    = Return (b64decode (drop 32 url)).
Proof.
  pose proof (generate_collecthw_url_cases code) as Hc.
  destruct (str_encode_utf8 (strip (before_first HYPHEN code)))
    as [raw|e] eqn:He.
  - rewrite Hc. intros Hu _.
    assert (url = URL_PREFIX ++ b64encode raw) as -> by congruence.
    split; [done|].
    change (drop 32 (URL_PREFIX ++ b64encode raw)) with (b64encode raw).
    rewrite b64decode_b64encode; [done|]. by eapply str_encode_utf8_octets.
  - rewrite Hc. by intros [= <-] ?.
Qed.

Lemma link_decodes_to_prefix_witness :
  take 32 (lit "https://collecthw.com/hw/search/SkJDMTk=") = URL_PREFIX
  ∧ str_encode_utf8 (strip (before_first HYPHEN (lit " JBC19 -N7C5")))
    = Return (b64decode (drop 32
                (lit "https://collecthw.com/hw/search/SkJDMTk="))).
Proof.
  apply (link_decodes_to_prefix (lit " JBC19 -N7C5")
           (lit "https://collecthw.com/hw/search/SkJDMTk=")).
  - by vm_compute.
  - by vm_compute.
Defined.

(** ** What the link does not depend on *)

Lemma generate_collecthw_url_congr c1 c2 :
  strip (before_first HYPHEN c1) = strip (before_first HYPHEN c2) →
  generate_collecthw_url c1 = generate_collecthw_url c2.
Proof.
  intros H. pose proof (generate_collecthw_url_cases c1) as H1.
  pose proof (generate_collecthw_url_cases c2) as H2.
  rewrite H in H1.
  destruct (str_encode_utf8 (strip (before_first HYPHEN c2))); congruence.
Qed.

Lemma lstrip_blanks w s :
  Forall (fun c => isspace c = true) w → lstrip (w ++ s) = lstrip s.
Proof. induction 1 as [|c r Hc Hr IH]; simpl; [done|]. by rewrite Hc. Qed.

Lemma lstrip_all_blanks w :
  Forall (fun c => isspace c = true) w → lstrip w = [].
Proof.
  intros H. rewrite <- (app_nil_r w). by rewrite lstrip_blanks.
Qed.

Lemma lstrip_app s w :
  lstrip (s ++ w) = match lstrip s with
                    | [] => lstrip w
                    | _ :: _ => lstrip s ++ w
                    end.
Proof.
  induction s as [|c r IH]; simpl; [by destruct (lstrip w)|].
  by destruct (isspace c).
Qed.

Lemma rstrip_blanks s w :
  Forall (fun c => isspace c = true) w → rstrip (s ++ w) = rstrip s.
Proof.
  intros H. unfold rstrip. rewrite rev_app_distr, lstrip_blanks; [done|].
  by apply Forall_rev.
Qed.

Lemma strip_blanks w1 s w2 :
  Forall (fun c => isspace c = true) w1 →
  Forall (fun c => isspace c = true) w2 →
  strip (w1 ++ s ++ w2) = strip s.
Proof.
  intros H1 H2. unfold strip. rewrite lstrip_blanks by done.
  rewrite lstrip_app. destruct (lstrip s) as [|c r] eqn:Hs.
  - by rewrite lstrip_all_blanks.
  - by rewrite rstrip_blanks.
Qed.

Lemma isspace_not_hyphen w :
  Forall (fun c => isspace c = true) w → HYPHEN ∉ w.
Proof.
  intros H Hin. rewrite Forall_forall in H. by specialize (H _ Hin).
Qed.

(** X3: The link depends on the code only through the part before its first
    hyphen, blanks around that part left out: what follows the hyphen,
    and blanks before or after the prefix, change nothing. *)
Theorem link_ignores_suffix_and_blanks (w1 p w2 rest : pystr) :
  Forall (fun c => isspace c = true) w1 →
  Forall (fun c => isspace c = true) w2 →
  HYPHEN ∉ p →
  generate_collecthw_url (w1 ++ p ++ w2 ++ HYPHEN :: rest)
  = generate_collecthw_url p
  ∧ generate_collecthw_url (w1 ++ p ++ w2) = generate_collecthw_url p.
Proof.
  intros H1 H2 Hp.
  assert (Hno : HYPHEN ∉ w1 ++ p ++ w2).
  { rewrite !elem_of_app.
    intros [?|[?|?]]; [by apply (isspace_not_hyphen w1)|done
                       |by apply (isspace_not_hyphen w2)]. }
  split; apply generate_collecthw_url_congr.
  - replace (w1 ++ p ++ w2 ++ HYPHEN :: rest)
      with ((w1 ++ p ++ w2) ++ HYPHEN :: rest)
      by (by rewrite <- !app_assoc).
    rewrite before_first_app, (before_first_id _ p) by done.
    by apply strip_blanks.
  - rewrite !before_first_id by done. by apply strip_blanks.
Qed.

Lemma link_ignores_suffix_and_blanks_witness :
  generate_collecthw_url (lit "  " ++ lit "JBC19" ++ [9] ++ HYPHEN :: lit "N7C5-x")
  = generate_collecthw_url (lit "JBC19")
  ∧ generate_collecthw_url (lit "  " ++ lit "JBC19" ++ [9])
    = generate_collecthw_url (lit "JBC19").
Proof.
  apply (link_ignores_suffix_and_blanks (lit "  ") (lit "JBC19") [9]
           (lit "N7C5-x")).
  - apply forallb_Forall. by vm_compute.
  - apply forallb_Forall. by vm_compute.
  - intros Hin. apply list_elem_of_In in Hin. vm_compute in Hin.
    intuition discriminate.
Defined.

(** ** The characters of a link *)

Lemma b64_char_text i : i < 64 → is_b64_text (b64_char i) = true.
Proof.
  intros H.
  by apply (forallb_below (fun i => is_b64_text (b64_char i)) 64);
    [by vm_compute|].
Qed.

Lemma b64encode_text raw :
  Forall (fun b => b < 256) raw →
  Forall (fun c => is_b64_text c = true) (b64encode raw).
Proof.
  induction raw as [|a|a b|a b c l IH] using list_ind3; intros H;
    cbn [b64encode].
  - constructor.
  - apply Forall_cons in H as [Ha _].
    repeat constructor;
      auto using b64_char_text, sextet0_lt, sextet1_last_lt.
  - apply Forall_cons in H as [Ha [Hb _]%Forall_cons].
    repeat constructor;
      auto using b64_char_text, sextet0_lt, sextet1_lt, sextet2_last_lt.
  - apply Forall_cons in H as [Ha [Hb [Hc Hl]%Forall_cons]%Forall_cons].
    repeat (constructor; [by auto using b64_char_text, sextet0_lt,
                            sextet1_lt, sextet2_lt, sextet3_lt|]).
    by apply IH.
Qed.

Lemma b64_text_formula_safe c :
  is_b64_text c = true → formula_safe c = true.
Proof.
  unfold is_b64_text, is_ascii_alnum, formula_safe, EQUALS, DQUOTE.
  intros H. bools H.
  rewrite !andb_true_iff, negb_true_iff, N.leb_le, N.ltb_lt, N.eqb_neq.
  lia.
Qed.

Lemma formula_safe_not_quote url :
  Forall (fun c => formula_safe c = true) url → DQUOTE ∉ url.
Proof.
  intros H Hin. rewrite Forall_forall in H. by specialize (H _ Hin).
Qed.

(** X4: Whatever the code, the string returned holds printable ASCII
    characters only and no double quote; so the formula of the row, which
    puts the link between double quotes, holds exactly the four double
    quotes of its template and the link cannot end the quoted text. *)
Theorem link_is_formula_safe (code url : pystr) :
  generate_collecthw_url code = Return url →
  Forall (fun c => formula_safe c = true) url
  ∧ (DQUOTE ∉ url)
  ∧ count_occ N.eq_dec (link_formula_of url) DQUOTE = 4%nat.
Proof.
  intros Hu.
  assert (Hsafe : Forall (fun c => formula_safe c = true) url).
  { pose proof (generate_collecthw_url_cases code) as Hc.
    destruct (str_encode_utf8 (strip (before_first HYPHEN code)))
      as [raw|e] eqn:He.
    - assert (url = URL_PREFIX ++ b64encode raw) as -> by congruence.
      apply Forall_app. split; [apply forallb_Forall; by vm_compute|].
      eapply Forall_impl; [|apply b64_text_formula_safe].
      apply b64encode_text. by eapply str_encode_utf8_octets.
    - assert (url = LINK_ERROR) as -> by congruence.
      apply forallb_Forall. by vm_compute. }
  pose proof (formula_safe_not_quote url Hsafe) as Hq.
  split; [done|]. split; [done|].
  unfold link_formula_of. rewrite !count_occ_app.
  rewrite (proj1 (count_occ_not_In N.eq_dec url DQUOTE)); [done|].
  by rewrite <- list_elem_of_In.
Qed.

Lemma link_is_formula_safe_witness :
  Forall (fun c => formula_safe c = true) LINK_ERROR
  ∧ (DQUOTE ∉ LINK_ERROR)
  ∧ count_occ N.eq_dec (link_formula_of LINK_ERROR) DQUOTE = 4%nat.
Proof.
  apply (link_is_formula_safe [34; 0xD800; 34]). by vm_compute.
Defined.

(** ** The link of a code of the pattern *)

Local Ltac all_ascii P :=
  intros;
  first [ by apply (forallb_below P 128); [by vm_compute|]
        | by apply (forallb_below2 P 128 128); [by vm_compute| |] ].

Lemma alnum_sextet0 a :
  a < 128 → is_ascii_alnum (b64_char (N.shiftr a 2)) = true.
Proof. all_ascii (fun a => is_ascii_alnum (b64_char (N.shiftr a 2))). Qed.

Lemma alnum_sextet1 a b :
  a < 128 → b < 128 →
  is_ascii_alnum
    (b64_char (N.lor (N.shiftl (N.land a 3) 4) (N.shiftr b 4))) = true.
Proof.
  all_ascii
    (fun a b =>
       is_ascii_alnum
         (b64_char (N.lor (N.shiftl (N.land a 3) 4) (N.shiftr b 4)))).
Qed.

Lemma alnum_sextet2 b c :
  b < 128 → c < 128 →
  is_ascii_alnum
    (b64_char (N.lor (N.shiftl (N.land b 15) 2) (N.shiftr c 6))) = true.
Proof.
  all_ascii
    (fun b c =>
       is_ascii_alnum
         (b64_char (N.lor (N.shiftl (N.land b 15) 2) (N.shiftr c 6)))).
Qed.

Lemma alnum_sextet2_last b :
  b < 128 → is_ascii_alnum (b64_char (N.shiftl (N.land b 15) 2)) = true.
Proof.
  all_ascii (fun b => is_ascii_alnum (b64_char (N.shiftl (N.land b 15) 2))).
Qed.

Lemma alnum_sextet3 c :
  is_upper_or_digit c = true →
  is_ascii_alnum (b64_char (N.land c 63)) = true.
Proof.
  intros H.
  assert (Hc : c < 128).
  { by destruct (alnum_facts c (upper_or_digit_alnum c H)). }
  assert (Hi : implb (is_upper_or_digit c)
                 (is_ascii_alnum (b64_char (N.land c 63))) = true).
  { revert Hc.
    all_ascii (fun c => implb (is_upper_or_digit c)
                          (is_ascii_alnum (b64_char (N.land c 63)))). }
  by rewrite H in Hi.
Qed.

(** X5: The link of a code of the pattern is the URL prefix followed by
    eight characters: seven letters or digits, never [+] or [/], and one
    padding [=]; forty characters in all. *)
Theorem code_link_shape (m : pystr) :
  code_shape m = true →
  ∃ t, generate_collecthw_url m = Return (URL_PREFIX ++ t ++ [EQUALS])
       ∧ length t = 7%nat
       ∧ Forall (fun c => is_ascii_alnum c = true) t
       ∧ length (URL_PREFIX ++ t ++ [EQUALS]) = 40%nat.
Proof.
  intros Hm. destruct (code_shape_prefix m Hm) as [Hp Hal].
  rewrite (generate_collecthw_url_alnum m Hal), Hp.
  destruct m as [|a [|b [|c [|d [|e [|h [|f [|g [|i [|j [|]]]]]]]]]]];
    try discriminate.
  cbn [code_shape forallb] in Hm. bools Hm.
  destruct Hm as [[(Ha&Hb&Hc&Hd&He&_) _] _].
  assert (Hlt : ∀ x, is_upper_or_digit x = true → x < 128).
  { intros x Hx. by destruct (alnum_facts x (upper_or_digit_alnum x Hx)). }
  cbn [take b64encode].
  eexists [_; _; _; _; _; _; _]. split; [reflexivity|].
  split; [done|]. split; [|done].
  repeat constructor;
    auto using alnum_sextet0, alnum_sextet1, alnum_sextet2,
      alnum_sextet2_last, alnum_sextet3.
Qed.

Lemma code_link_shape_witness :
  ∃ t, generate_collecthw_url (lit "HKJ88-X2Z1")
       = Return (URL_PREFIX ++ t ++ [EQUALS])
       ∧ length t = 7%nat
       ∧ Forall (fun c => is_ascii_alnum c = true) t
       ∧ length (URL_PREFIX ++ t ++ [EQUALS]) = 40%nat.
Proof. apply (code_link_shape (lit "HKJ88-X2Z1")). by vm_compute. Defined.

(** * Further properties of the code extractor *)

Lemma scan_length fuel pos s :
  (10 * length (scan pattern fuel pos s) ≤ length s)%nat.
Proof.
  revert pos s. induction fuel as [|fuel IH]; intros pos s; [simpl; lia|].
  destruct s as [|c r]; [simpl; lia|].
  rewrite scan_step. destruct (code_shape (take 10 (c :: r))) eqn:Hs.
  - apply code_shape_length in Hs. rewrite length_take in Hs.
    specialize (IH (pos + 10)%nat (drop 10 (c :: r))).
    rewrite length_drop in IH. cbn [length] in *. lia.
  - specialize (IH (S pos) r). cbn [length]. lia.
Qed.

Lemma regex_hunt_length text :
  (length (regex_hunt text) ≤ length (re_findall pattern text))%nat.
Proof.
  rewrite regex_hunt_Permutation. apply submseteq_length, NoDup_submseteq.
  - apply NoDup_elements.
  - intros c. unfold to_set. by rewrite elem_of_elements, elem_of_list_to_set.
Qed.

(** X6: Extraction returns at most one code for every ten characters that
    the OCR engine read, and never more codes than the scan matched. *)
Theorem extract_count_bound
    (Image : Type) (grayscale enhance_contrast : Image → Image)
    (image_to_string : Image → pystr) (image : Image) :
  let text := image_to_string (enhance_contrast (grayscale image)) in
  let codes := extract_all_codes Image grayscale enhance_contrast
                 image_to_string image in
  (length codes ≤ length (re_findall pattern text))%nat
  ∧ (10 * length (re_findall pattern text) ≤ length text)%nat
  ∧ (length codes ≤ length text / 10)%nat.
Proof.
  intros text codes.
  assert (H1 : (length codes ≤ length (re_findall pattern text))%nat)
    by apply regex_hunt_length.
  assert (H2 : (10 * length (re_findall pattern text) ≤ length text)%nat).
  { unfold re_findall. rewrite length_map. apply scan_length. }
  split; [done|]. split; [done|].
  apply Nat.div_le_lower_bound; lia.
Qed.

Lemma occurs_at_hyphen text q : occurs_at text q → HYPHEN ∈ text.
Proof.
  intros H. apply code_shape_invariant in H as (_ & _ & H5 & _).
  apply list_elem_of_lookup_2 in H5.
  by apply (subseteq_drop q text), (subseteq_take 10 (drop q text)).
Qed.

Lemma occurs_at_length text q : occurs_at text q → (q + 10 ≤ length text)%nat.
Proof.
  intros H. apply code_shape_length in H.
  rewrite length_take, length_drop in H. lia.
Qed.

Lemma regex_hunt_nil_iff text :
  regex_hunt text = [] ↔ ∀ q, ¬ occurs_at text q.
Proof.
  split.
  - intros Hnil q Hq.
    destruct (re_finditer_complete text q Hq) as (p & m & Hin & _).
    assert (Hm : m ∈ regex_hunt text).
    { rewrite elem_of_regex_hunt, elem_of_re_findall. by exists p. }
    rewrite Hnil in Hm. by apply elem_of_nil in Hm.
  - intros Hno. destruct (regex_hunt text) as [|c l] eqn:Hr; [done|].
    assert (Hc : c ∈ regex_hunt text) by (rewrite Hr; apply list_elem_of_here).
    rewrite elem_of_regex_hunt, elem_of_re_findall in Hc.
    destruct Hc as (p & Hin). apply re_finditer_sound in Hin as [_ Hocc].
    by destruct (Hno p).
Qed.

(** X7: Extraction returns no code exactly when the OCR text holds the shape
    nowhere, and that is exactly when the scan handler warns that no
    codes were found and leaves the session as it was.  A text without a
    hyphen, or of fewer than ten characters, is such a text. *)
Theorem no_codes_iff_no_occurrence
    (Image : Type) (grayscale enhance_contrast : Image → Image)
    (image_to_string : Image → pystr) (image : Image)
    (st : session_state) :
  let text := image_to_string (enhance_contrast (grayscale image)) in
  let codes := extract_all_codes Image grayscale enhance_contrast
                 image_to_string image in
  (codes = [] ↔ ∀ q, ¬ occurs_at text q)
  ∧ (scan_stack Image grayscale enhance_contrast image_to_string image st
     = Return (st, [ShowWarning
                      (lit "No codes found. Ensure text is horizontal and lit well.")])
     ↔ ∀ q, ¬ occurs_at text q)
  ∧ (HYPHEN ∉ text → codes = [])
  ∧ ((length text < 10)%nat → codes = []).
Proof.
  intros text codes.
  assert (Hiff : codes = [] ↔ ∀ q, ¬ occurs_at text q)
    by apply regex_hunt_nil_iff.
  split; [done|]. split; [|split].
  - rewrite <- Hiff. unfold scan_stack. fold codes.
    destruct codes as [|c l]; [done|]. split; [|done].
    destruct (build_results_spec (c :: l) []) as (new & -> & _).
    rewrite bind_Return. by intros [= _ ?].
  - intros Hno. apply Hiff. intros q Hq. by apply occurs_at_hyphen in Hq.
  - intros Hlt. apply Hiff. intros q Hq. apply occurs_at_length in Hq. lia.
Qed.

Lemma no_codes_iff_no_occurrence_witness :
  extract_all_codes pystr id id id (lit "jbc19-n7c5 JBC19_N7C5 JBC1-N7C5")
  = [].
Proof.
  apply (proj2 (proj1 (no_codes_iff_no_occurrence pystr id id id
                         (lit "jbc19-n7c5 JBC19_N7C5 JBC1-N7C5")
                         (Session [])))).
  intros q Hq. pose proof (occurs_at_length _ _ Hq) as Hl.
  change (length _) with 31%nat in Hl. unfold occurs_at in Hq.
  do 22 (destruct q as [|q]; [by vm_compute in Hq|]).
  lia.
Defined.

(** ** From the extracted codes to their links *)

Lemma regex_hunt_link text c :
  c ∈ regex_hunt text →
  generate_collecthw_url c = Return (URL_PREFIX ++ b64encode (take 5 c))
  ∧ Forall (fun x => is_ascii_alnum x = true) (take 5 c).
Proof.
  intros Hs%regex_hunt_shape.
  destruct (code_shape_prefix c Hs) as [Hp Hal].
  rewrite (generate_collecthw_url_alnum c Hal), Hp. split; [done|].
  by rewrite <- Hp.
Qed.

(** X8: Every code that extraction returns gets a link, never the sentinel:
    the URL of the base64 text of its first five characters.  Two
    extracted codes get the same link exactly when their first five
    characters agree. *)
Theorem extracted_codes_get_links
    (Image : Type) (grayscale enhance_contrast : Image → Image)
    (image_to_string : Image → pystr) (image : Image) (c1 c2 : pystr) :
  c1 ∈ extract_all_codes Image grayscale enhance_contrast image_to_string
         image →
  c2 ∈ extract_all_codes Image grayscale enhance_contrast image_to_string
         image →
  generate_collecthw_url c1 = Return (URL_PREFIX ++ b64encode (take 5 c1))
  ∧ generate_collecthw_url c1 ≠ Return LINK_ERROR
  ∧ (generate_collecthw_url c1 = generate_collecthw_url c2
     ↔ take 5 c1 = take 5 c2).
Proof.
  unfold extract_all_codes.
  intros [H1 A1]%regex_hunt_link [H2 A2]%regex_hunt_link.
  split; [done|]. split.
  - rewrite H1. intros Hx.
    apply (url_not_error (b64encode (take 5 c1))). congruence.
  - rewrite H1, H2. split; [|by intros ->].
    intros [= He]. apply b64encode_inj; [| |done].
    + eapply Forall_impl; [exact A1|]. intros x Hx.
      destruct (alnum_facts x Hx). lia.
    + eapply Forall_impl; [exact A2|]. intros x Hx.
      destruct (alnum_facts x Hx). lia.
Qed.

Lemma extracted_codes_get_links_witness :
  generate_collecthw_url (lit "JBC19-N7C5")
  = Return (URL_PREFIX ++ b64encode (take 5 (lit "JBC19-N7C5")))
  ∧ generate_collecthw_url (lit "JBC19-N7C5") ≠ Return LINK_ERROR
  ∧ (generate_collecthw_url (lit "JBC19-N7C5")
     = generate_collecthw_url (lit "JBC19-X2Z1")
     ↔ take 5 (lit "JBC19-N7C5") = take 5 (lit "JBC19-X2Z1")).
Proof.
  apply (extracted_codes_get_links pystr id id id
           (lit "JBC19-X2Z1 JBC19-N7C5")).
  - apply list_elem_of_In. vm_compute. by left.
  - apply list_elem_of_In. vm_compute. right. by left.
Defined.

(** ** Reading back a list of codes *)

Lemma scan_step_drop fuel pos s :
  s ≠ [] →
  scan pattern (S fuel) pos s
  = if code_shape (take 10 s)
    then (pos, take 10 s) :: scan pattern fuel (pos + 10) (drop 10 s)
    else scan pattern fuel (S pos) (drop 1 s).
Proof. destruct s as [|c r]; [done|]. intros _. apply scan_step. Qed.

Lemma code_shape_head m :
  code_shape m = true → ∃ x r, m = x :: r ∧ is_upper_or_digit x = true.
Proof.
  intros (a & b & -> & Ha & _ & Fa & _)%code_shape_split.
  destruct a as [|x a]; [done|]. apply Forall_cons in Fa as [Hx _].
  by exists x, (a ++ HYPHEN :: b).
Qed.

Lemma code_shape_after_newline rest :
  code_shape (take 10 (10 :: rest)) = false.
Proof.
  destruct (code_shape (take 10 (10 :: rest))) eqn:Hs; [|done].
  apply code_shape_head in Hs as (x & r & Hm & Hx).
  cbn [take] in Hm. by injection Hm as <- _.
Qed.

Lemma scan_lines codes fuel pos :
  Forall (fun c => code_shape c = true) codes →
  (length (lines_of codes) ≤ fuel)%nat →
  map snd (scan pattern fuel pos (lines_of codes)) = codes.
Proof.
  intros Hc. revert fuel pos.
  induction Hc as [|c codes Hs Hcs IH]; intros fuel pos Hf.
  { simpl. by rewrite scan_nil. }
  pose proof (code_shape_length c Hs) as Hl.
  change (lines_of (c :: codes)) with ((c ++ [10]) ++ lines_of codes) in *.
  rewrite <- app_assoc in *. rewrite length_app in Hf. cbn [app length] in Hf.
  destruct fuel as [|[|fuel]]; [lia..|].
  rewrite scan_step_drop by (by destruct c).
  rewrite take_app_length', drop_app_length' by done. rewrite Hs.
  cbn [map snd app]. f_equal.
  rewrite scan_step_drop by done. rewrite code_shape_after_newline.
  apply IH. lia.
Qed.

Lemma StronglySorted_weaken {A} (R R' : A → A → Prop) l :
  (∀ x y, R x y → R' x y) → StronglySorted R l → StronglySorted R' l.
Proof.
  intros HR. induction 1 as [|x l Hl IH Hx]; constructor; [done|].
  eapply Forall_impl; [exact Hx|]. auto.
Qed.

Lemma StronglySorted_str_lt_NoDup l : StronglySorted str_lt l → NoDup l.
Proof.
  induction 1 as [|x l Hl IH Hx]; constructor; [|done].
  intros Hin. rewrite Forall_forall in Hx. by destruct (Hx x Hin).
Qed.

Lemma regex_hunt_lines codes :
  Forall (fun c => code_shape c = true) codes →
  StronglySorted str_lt codes →
  regex_hunt (lines_of codes) = codes.
Proof.
  intros Hc Hs.
  assert (Hfind : re_findall pattern (lines_of codes) = codes)
    by (by apply scan_lines).
  rewrite <- (regex_hunt_any_enumeration (lines_of codes) codes).
  - apply (StronglySorted_unique str_le).
    + apply sorted_StronglySorted.
    + eapply StronglySorted_weaken; [|exact Hs]. by intros x y [? _].
    + apply sorted_Permutation.
  - by apply StronglySorted_str_lt_NoDup.
  - intros c. by rewrite Hfind.
Qed.

(** X9: Reading back: when the OCR engine returns a list of distinct codes
    of the pattern in ascending order, one per line, extraction returns
    exactly that list. *)
Theorem extract_lines_roundtrip
    (Image : Type) (grayscale enhance_contrast : Image → Image)
    (image_to_string : Image → pystr) (image : Image)
    (codes : list pystr) :
  image_to_string (enhance_contrast (grayscale image)) = lines_of codes →
  Forall (fun c => code_shape c = true) codes →
  StronglySorted str_lt codes →
  extract_all_codes Image grayscale enhance_contrast image_to_string image
  = codes.
Proof.
  intros Ht Hc Hs. unfold extract_all_codes. rewrite Ht.
  by apply regex_hunt_lines.
Qed.

Lemma extract_lines_roundtrip_witness :
  extract_all_codes pystr id id id
    (lines_of [lit "HKJ88-X2Z1"; lit "JBC19-N7C5"; lit "JBC19-X2Z1"])
  = [lit "HKJ88-X2Z1"; lit "JBC19-N7C5"; lit "JBC19-X2Z1"].
Proof.
  apply (extract_lines_roundtrip pystr id id id).
  - done.
  - repeat constructor.
  - repeat constructor; by vm_compute.
Defined.

(** * Further properties of the batch session *)

Lemma StronglySorted_str_lt l :
  StronglySorted str_le l → NoDup l → StronglySorted str_lt l.
Proof.
  induction 1 as [|x l Hl IH Hx]; intros Hnd; [constructor|].
  apply NoDup_cons in Hnd as [Hx' Hnd]. constructor; [by apply IH|].
  rewrite Forall_forall in Hx |- *. intros y Hy. split; [by apply Hx|].
  by intros ->.
Qed.

Lemma regex_hunt_str_lt text : StronglySorted str_lt (regex_hunt text).
Proof.
  apply StronglySorted_str_lt; [|apply regex_hunt_NoDup].
  apply sorted_StronglySorted.
Qed.

Lemma pairs_built_from_codes codes batch :
  pairs_built_from codes batch → map code batch = codes.
Proof.
  induction 1 as [|c r codes batch [Hc _] _ IH]; simpl; [done|].
  by rewrite Hc, IH.
Qed.

Lemma pairs_built_from_records text codes batch :
  (∀ c, c ∈ codes → c ∈ regex_hunt text) →
  pairs_built_from codes batch → Forall well_formed_record batch.
Proof.
  intros Hin Hp. induction Hp as [|c r codes batch [Hc Hl] _ IH];
    [constructor|].
  constructor.
  - destruct (regex_hunt_link text c) as [Hu _];
      [apply Hin, list_elem_of_here|].
    split.
    + rewrite Hc. eapply regex_hunt_shape, Hin, list_elem_of_here.
    + rewrite Hc. congruence.
  - apply IH. intros x Hx. by apply Hin, list_elem_of_further.
Qed.

Lemma pairs_built_from_well_formed text batch :
  pairs_built_from (regex_hunt text) batch → well_formed_batch batch.
Proof.
  intros Hp. split.
  - by eapply pairs_built_from_records.
  - rewrite (pairs_built_from_codes _ _ Hp). apply regex_hunt_str_lt.
Qed.

Lemma well_formed_batch_nil : well_formed_batch [].
Proof. split; constructor. Qed.

(** The scan handler ends without an exception. *)
Lemma scan_stack_returns
    (Image : Type) (grayscale enhance_contrast : Image → Image)
    (image_to_string : Image → pystr) (image : Image)
    (st : session_state) :
  ∃ st' shown,
    scan_stack Image grayscale enhance_contrast image_to_string image st
    = Return (st', shown).
Proof.
  unfold scan_stack.
  destruct (extract_all_codes _ _ _ _ _) as [|c l]; [by eexists _, _|].
  destruct (build_results_spec (c :: l) []) as (new & -> & _).
  rewrite bind_Return. by eexists _, _.
Qed.

(** The scan handler keeps a well-formed batch well-formed. *)
Lemma scan_stack_well_formed
    (Image : Type) (grayscale enhance_contrast : Image → Image)
    (image_to_string : Image → pystr) (image : Image)
    (st st' : session_state) (shown : list ui) :
  well_formed_batch (found_cars st) →
  scan_stack Image grayscale enhance_contrast image_to_string image st
  = Return (st', shown) →
  well_formed_batch (found_cars st').
Proof.
  intros Hw. unfold scan_stack, extract_all_codes.
  set (text := image_to_string (enhance_contrast (grayscale image))).
  destruct (regex_hunt text) as [|c l] eqn:Hr; [by intros [= <- _]|].
  rewrite <- Hr.
  destruct (build_results_spec (regex_hunt text) []) as (new & -> & Hnew).
  rewrite bind_Return. intros [= <- _]. by eapply pairs_built_from_well_formed.
Qed.

(** X10: After a scan that read at least one code, the codes of the batch
    are the extracted codes in their order, so they are of the pattern,
    distinct and ascending; every link is the URL of its code's first
    five characters; and the message shown counts the records of the
    batch. *)
Theorem scan_result_well_formed
    (Image : Type) (grayscale enhance_contrast : Image → Image)
    (image_to_string : Image → pystr) (image : Image)
    (st st' : session_state) (shown : list ui) :
  scan_stack Image grayscale enhance_contrast image_to_string image st
  = Return (st', shown) →
  extract_all_codes Image grayscale enhance_contrast image_to_string image
  ≠ [] →
  map code (found_cars st')
  = extract_all_codes Image grayscale enhance_contrast image_to_string image
  ∧ well_formed_batch (found_cars st')
  ∧ shown = [ShowSuccess (lit "Found "
                          ++ str_of_nat (length (found_cars st'))
                          ++ lit " Codes!")].
Proof.
  unfold scan_stack, extract_all_codes.
  set (text := image_to_string (enhance_contrast (grayscale image))).
  destruct (regex_hunt text) as [|c l] eqn:Hr; [done|].
  rewrite <- Hr.
  destruct (build_results_spec (regex_hunt text) []) as (new & -> & Hnew).
  rewrite bind_Return. intros [= <- <-] _. cbn [app found_cars].
  split; [by apply pairs_built_from_codes|].
  split; [by eapply pairs_built_from_well_formed|].
  by rewrite (Forall2_length _ _ _ Hnew).
Qed.

Lemma scan_result_well_formed_witness :
  ∃ st' shown,
    scan_stack pystr id id id (lit "JBC19-N7C5 x HKJ88-X2Z1")
      (Session [Car (lit "old") (lit "unsaved")])
    = Return (st', shown)
    ∧ map code (found_cars st') = [lit "HKJ88-X2Z1"; lit "JBC19-N7C5"]
    ∧ well_formed_batch (found_cars st')
    ∧ shown = [ShowSuccess (lit "Found 2 Codes!")].
Proof.
  destruct (scan_stack_returns pystr id id id
              (lit "JBC19-N7C5 x HKJ88-X2Z1")
              (Session [Car (lit "old") (lit "unsaved")]))
    as (st' & shown & Hs).
  exists st', shown. split; [exact Hs|].
  destruct (scan_result_well_formed pystr id id id
              (lit "JBC19-N7C5 x HKJ88-X2Z1")
              (Session [Car (lit "old") (lit "unsaved")]) st' shown Hs)
    as (Hc & Hw & Hm); [by vm_compute|].
  assert (He : extract_all_codes pystr id id id
                 (lit "JBC19-N7C5 x HKJ88-X2Z1")
               = [lit "HKJ88-X2Z1"; lit "JBC19-N7C5"]) by (by vm_compute).
  rewrite He in Hc. split; [exact Hc|]. split; [exact Hw|].
  rewrite <- (length_map code), Hc in Hm. exact Hm.
Defined.

(** ** What a save reports *)

(** X11: The flag that [save_batch_to_sheet] returns is true only when the
    worksheet was reached and took the rows; the message then counts the
    records of the batch.  When the flag is false either no worksheet was
    reached, nothing was called and the message says so, or the one call
    raised and the message carries the text of the exception. *)
Theorem save_report_is_truthful
    (conn : option worksheet) (exn_text : pyexn → pystr)
    (car_list : list car) (success : bool) (msg : pystr)
    (calls : list sheet_call) :
  save_batch_to_sheet conn exn_text car_list = ((success, msg), calls) →
  (success = true →
   (∃ sheet u,
      conn = Some sheet
      ∧ append_rows sheet (map row_of car_list) (lit "USER_ENTERED")
        = Return u)
   ∧ msg = [0x2705] ++ lit " Added " ++ str_of_nat (length car_list)
           ++ lit " cars to the sheet!"
   ∧ calls = [AppendRows (map row_of car_list) (lit "USER_ENTERED")])
  ∧ (success = false →
     conn = None
     ∧ msg = [0x274C] ++ lit " Error: Could not connect to Google Sheet."
     ∧ calls = []
     ∨ ∃ sheet e,
         conn = Some sheet
         ∧ append_rows sheet (map row_of car_list) (lit "USER_ENTERED")
           = Raise e
         ∧ msg = [0x274C] ++ lit " Cloud Error: " ++ exn_text e
         ∧ calls = [AppendRows (map row_of car_list) (lit "USER_ENTERED")]).
Proof.
  pose proof (save_batch_to_sheet_cases conn exn_text car_list) as Hc.
  destruct conn as [sheet|].
  - destruct (append_rows sheet _ _) as [u|e] eqn:Ha; rewrite Hc;
      intros [= <- <- <-].
    + split; [|done]. intros _. split; [by exists sheet, u|done].
    + split; [done|]. intros _. right. by exists sheet, e.
  - rewrite Hc. intros [= <- <- <-]. split; [done|]. intros _. by left.
Qed.

Lemma save_report_is_truthful_witness :
  let batch := [Car (lit "HKJ88-X2Z1")
                  (lit "https://collecthw.com/hw/search/SEtKODg=");
                Car (lit "JBC19-N7C5")
                  (lit "https://collecthw.com/hw/search/SkJDMTk=")] in
  (∃ sheet u,
     Some (Worksheet (fun _ _ => Return tt)) = Some sheet
     ∧ append_rows sheet (map row_of batch) (lit "USER_ENTERED") = Return u)
  ∧ [0x2705] ++ lit " Added 2 cars to the sheet!"
    = [0x2705] ++ lit " Added " ++ str_of_nat (length batch)
      ++ lit " cars to the sheet!"
  ∧ [AppendRows (map row_of batch) (lit "USER_ENTERED")]
    = [AppendRows (map row_of batch) (lit "USER_ENTERED")].
Proof.
  intros batch.
  apply (proj1 (save_report_is_truthful
                  (Some (Worksheet (fun _ _ => Return tt))) (fun _ => [])
                  batch true
                  ([0x2705] ++ lit " Added 2 cars to the sheet!")
                  [AppendRows (map row_of batch) (lit "USER_ENTERED")]
                  eq_refl) eq_refl).
Defined.

(** ** The connection *)

(** X12: [get_sheet_connection] never raises: it returns a worksheet exactly
    when the secret is there and every call on the Google client
    returns, and [None] as soon as one of them raises.  A save then
    reports that the sheet could not be reached, calls nothing and keeps
    the batch. *)
Theorem connection_failure_is_reported
    (CredsDict Creds Client Spreadsheet : Type)
    (secrets : pystr → pyresult CredsDict)
    (from_json_keyfile_dict : CredsDict → list pystr → pyresult Creds)
    (authorize : Creds → pyresult Client)
    (client_open : Client → pystr → pyresult Spreadsheet)
    (sheet1 : Spreadsheet → pyresult worksheet)
    (exn_text : pyexn → pystr) (st : session_state) :
  let conn := get_sheet_connection CredsDict Creds Client Spreadsheet
                secrets from_json_keyfile_dict authorize client_open
                sheet1 in
  (∀ sheet,
     conn = Some sheet
     ↔ ∃ creds_dict creds client book,
         secrets (lit "gcp_service_account") = Return creds_dict
         ∧ from_json_keyfile_dict creds_dict SCOPE = Return creds
         ∧ authorize creds = Return client
         ∧ client_open client SHEET_NAME = Return book
         ∧ sheet1 book = Return sheet)
  ∧ (conn = None →
     save_batch_to_sheet conn exn_text (found_cars st)
     = ((false,
         [0x274C] ++ lit " Error: Could not connect to Google Sheet."), [])
     ∧ (found_cars st ≠ [] →
        save_all conn exn_text st
        = Some (st,
                [ShowError
                   ([0x274C]
                    ++ lit " Error: Could not connect to Google Sheet.")],
                []))).
Proof.
  intros conn. split.
  - intros sheet. subst conn.
    unfold get_sheet_connection, get_sheet_connection_body. split.
    + destruct (secrets _) as [d|e] eqn:H1; [|done]. rewrite bind_Return.
      destruct (from_json_keyfile_dict d SCOPE) as [c|e] eqn:H2; [|done].
      rewrite bind_Return.
      destruct (authorize c) as [cl|e] eqn:H3; [|done]. rewrite bind_Return.
      destruct (client_open cl SHEET_NAME) as [b|e] eqn:H4; [|done].
      rewrite bind_Return.
      destruct (sheet1 b) as [w|e] eqn:H5; [|done].
      intros [= <-]. by exists d, c, cl, b.
    + intros (d & c & cl & b & -> & H2 & H3 & H4 & H5).
      rewrite bind_Return, H2, bind_Return, H3, bind_Return, H4, bind_Return.
      by rewrite H5.
  - intros ->. split; [done|]. intros Hne. unfold save_all.
    by destruct (found_cars st).
Qed.

Lemma connection_failure_is_reported_witness :
  save_all
    (get_sheet_connection unit unit unit unit
       (fun _ => Raise (CloudFault (lit "no such secret")))
       (fun _ _ => Return tt) (fun _ => Return tt) (fun _ _ => Return tt)
       (fun _ => Return (Worksheet (fun _ _ => Return tt))))
    (fun _ => [])
    (Session [Car (lit "JBC19-N7C5")
                (lit "https://collecthw.com/hw/search/SkJDMTk=")])
  = Some (Session [Car (lit "JBC19-N7C5")
                     (lit "https://collecthw.com/hw/search/SkJDMTk=")],
          [ShowError
             ([0x274C] ++ lit " Error: Could not connect to Google Sheet.")],
          []).
Proof.
  apply (proj2 (connection_failure_is_reported unit unit unit unit
                  (fun _ => Raise (CloudFault (lit "no such secret")))
                  (fun _ _ => Return tt) (fun _ => Return tt)
                  (fun _ _ => Return tt)
                  (fun _ => Return (Worksheet (fun _ _ => Return tt)))
                  (fun _ => [])
                  (Session [Car (lit "JBC19-N7C5")
                              (lit "https://collecthw.com/hw/search/SkJDMTk=")]))
           eq_refl).
  discriminate.
Defined.

(** * Properties of a run of the script *)

Lemma filter_record_lines_Shown shown :
  List.filter is_record_line (map Shown shown) = [].
Proof. induction shown as [|u l IH]; simpl; done. Qed.


Lemma existsb_save_button_Shown shown :
  existsb is_save_button (map Shown shown) = false.
Proof. induction shown as [|u l IH]; simpl; done. Qed.


Lemma save_all_session conn exn_text st st' shown calls :
  save_all conn exn_text st = Some (st', shown, calls) →
  (st' = st ∨ found_cars st' = [])
  ∧ (length calls ≤ 1)%nat
  ∧ (calls ≠ [] →
     ∃ sheet, conn = Some sheet
              ∧ calls = [AppendRows (map row_of (found_cars st))
                           (lit "USER_ENTERED")]).
Proof.
  unfold save_all. destruct (found_cars st) as [|r l] eqn:Hb; [done|].
  rewrite <- Hb.
  pose proof (save_batch_to_sheet_cases conn exn_text (found_cars st)) as Hc.
  destruct conn as [sheet|].
  - destruct (append_rows sheet _ _) as [u|e]; rewrite Hc;
      intros [= <- <- <-]; (split; [auto|]); (split; [simpl; lia|]);
      intros _; by exists sheet.
  - rewrite Hc. intros [= <- <- <-]. split; [auto|]. split; [simpl; lia|].
    done.
Qed.

Section ScriptProperties.
Variable exn_text : pyexn → pystr.
Variable File Image : Type.
Variable image_open : File → Image.
Variable exif_transpose : Image → Image.
Variable grayscale : Image → Image.
Variable enhance_contrast : Image → Image.
Variable image_to_string : Image → pystr.

Local Abbreviation run_of conn session inp :=
  (script_run exn_text File Image image_open exif_transpose grayscale
     enhance_contrast image_to_string conn session inp).
Local Abbreviation at_preview session inp :=
  (session_at_preview File Image image_open exif_transpose grayscale
     enhance_contrast image_to_string session inp).

(** A run, from the session it reaches the preview with. *)
Lemma script_run_unfold conn session inp :
  ∃ page1,
    existsb is_save_button page1 = false
    ∧ List.filter is_record_line page1 = []
    ∧ run_of conn session inp
      = let mid := at_preview session inp in
        match found_cars mid with
        | [] => Run mid page1 [] None
        | _ :: _ =>
            let page2 :=
              page1 ++ [Divider; Subheader (lit "Preview Batch")]
              ++ preview (found_cars mid)
              ++ [Divider; Button SAVE_LABEL] in
            if save_button File inp then
              match save_all conn exn_text mid with
              | Some (st2, shown, calls) =>
                  Run st2 (page2 ++ map Shown shown) calls None
              | None => Run mid page2 [] None
              end
            else Run mid page2 [] None
        end.
Proof.
  unfold script_run, session_at_preview.
  destruct (uploaded_file File inp) as [file|].
  - destruct (scan_button File inp).
    + destruct (scan_stack_returns Image grayscale enhance_contrast
                  image_to_string (exif_transpose (image_open file))
                  (match session with
                   | Some st => st
                   | None => Session []
                   end)) as (st1 & shown & Hs).
      rewrite Hs. eexists. split; [|split; [|reflexivity]].
      * rewrite !existsb_app, existsb_save_button_Shown. by vm_compute.
      * rewrite !List.filter_app, filter_record_lines_Shown. done.
    + eexists. split; [|split; [|reflexivity]]; by vm_compute.
  - eexists. split; [|split; [|reflexivity]]; by vm_compute.
Qed.

(** X14: A run calls the worksheet at most once, and only when the save
    button was clicked on a batch that is not empty and the worksheet was
    reached; the rows are those of the batch shown in the preview.  The
    session a run leaves is the one at the preview, or has an empty
    batch.  A run in which no button was clicked leaves the session as
    it was and calls nothing. *)
Theorem script_sheet_calls
    (conn : option worksheet) (session : option session_state)
    (inp : inputs File) :
  let r := run_of conn session inp in
  let mid := at_preview session inp in
  (length (run_calls r) ≤ 1)%nat
  ∧ (run_calls r ≠ [] →
     save_button File inp = true
     ∧ found_cars mid ≠ []
     ∧ ∃ sheet,
         conn = Some sheet
         ∧ run_calls r = [AppendRows (map row_of (found_cars mid))
                            (lit "USER_ENTERED")])
  ∧ (run_session r = mid ∨ found_cars (run_session r) = [])
  ∧ (scan_button File inp = false → save_button File inp = false →
     run_session r = match session with
                     | Some st => st
                     | None => Session []
                     end
     ∧ run_calls r = []).
Proof.
  intros r mid.
  assert (Hidle : scan_button File inp = false →
                  mid = match session with
                        | Some st => st
                        | None => Session []
                        end).
  { intros Hs. subst mid. unfold session_at_preview. rewrite Hs.
    by destruct (uploaded_file File inp). }
  destruct (script_run_unfold conn session inp) as (page1 & _ & _ & Hr).
  subst r. rewrite Hr. clear Hr. fold mid. cbv zeta.
  destruct (found_cars mid) as [|c l] eqn:Hb.
  { cbn [run_calls run_session length]. split; [lia|]. split; [done|].
    split; [by left|]. intros Hs _. split; [by apply Hidle|done]. }
  rewrite <- Hb. destruct (save_button File inp).
  - destruct (save_all conn exn_text mid) as [[[st2 shown] calls]|] eqn:Hv.
    + destruct (save_all_session _ _ _ _ _ _ Hv) as (Hst & Hlen & Hcalls).
      cbn [run_calls run_session]. split; [done|]. split.
      * intros Hne. split; [done|]. split; [by rewrite Hb|]. by apply Hcalls.
      * split; [done|]. done.
    + cbn [run_calls run_session length]. split; [lia|]. split; [done|].
      split; [by left|]. done.
  - cbn [run_calls run_session length]. split; [lia|]. split; [done|].
    split; [by left|]. intros Hs _. split; [by apply Hidle|done].
Qed.


Lemma script_run_session conn session inp :
  run_session (run_of conn session inp) = at_preview session inp
  ∨ found_cars (run_session (run_of conn session inp)) = [].
Proof.
  destruct (script_run_unfold conn session inp) as (page1 & _ & _ & ->).
  cbv zeta. destruct (found_cars (at_preview session inp)); [by left|].
  destruct (save_button File inp); [|by left].
  destruct (save_all conn exn_text _) as [[[st2 shown] calls]|] eqn:Hv;
    [|by left].
  destruct (save_all_session _ _ _ _ _ _ Hv) as ([-> | ?] & _); auto.
Qed.

(** What a run keeps: a well-formed batch stays well-formed. *)
Lemma script_run_well_formed conn session inp :
  well_formed_batch
    (found_cars (match session with
                 | Some st => st
                 | None => Session []
                 end)) →
  well_formed_batch (found_cars (run_session (run_of conn session inp))).
Proof.
  intros Hw.
  assert (Hmid : well_formed_batch (found_cars (at_preview session inp))).
  { unfold session_at_preview.
    destruct (uploaded_file File inp) as [file|]; [|done].
    destruct (scan_button File inp); [|done].
    destruct (scan_stack _ _ _ _ _ _) as [[st' shown]|e] eqn:Hs; [|done].
    by eapply scan_stack_well_formed. }
  destruct (script_run_session conn session inp) as [-> | ->];
    [done|apply well_formed_batch_nil].
Qed.

(** X16: Every session that a user can bring about holds a well-formed batch:
    the codes are of the pattern, distinct and in ascending order, and
    every link is the URL of its code's first five characters, so no
    record holds the sentinel and no row handed to the worksheet does. *)
Theorem reachable_batch_well_formed (st : session_state) :
  reachable exn_text File Image image_open exif_transpose grayscale
    enhance_contrast image_to_string st →
  well_formed_batch (found_cars st)
  ∧ NoDup (map code (found_cars st))
  ∧ (∀ r, r ∈ found_cars st →
          code_invariant (code r)
          ∧ generate_collecthw_url (code r) = Return (link r)
          ∧ link r ≠ LINK_ERROR).
Proof.
  intros Hr.
  assert (Hw : well_formed_batch (found_cars st)).
  { induction Hr as [conn inp|conn st inp Hr IH].
    - apply script_run_well_formed. apply well_formed_batch_nil.
    - by apply script_run_well_formed. }
  split; [done|]. destruct Hw as [Hrec Hs]. split.
  - by apply StronglySorted_str_lt_NoDup.
  - intros r Hin. rewrite Forall_forall in Hrec.
    destruct (Hrec r Hin) as [Hshape Hlink].
    split; [by apply code_shape_invariant|].
    destruct (code_shape_prefix _ Hshape) as [Hp Hal].
    rewrite (generate_collecthw_url_alnum _ Hal), Hp, Hlink.
    split; [done|]. apply url_not_error.
Qed.
End ScriptProperties.

Lemma script_sheet_calls_witness :
  let batch := [Car (lit "JBC19-N7C5")
                  (lit "https://collecthw.com/hw/search/SkJDMTk=")] in
  let conn := Some (Worksheet (fun _ _ => Raise (CloudFault (lit "quota")))) in
  let inp := Inputs pystr None false true in
  let r := script_run (fun _ => []) pystr pystr id id id id id
             conn (Some (Session batch)) inp in
  save_button pystr inp = true
  ∧ found_cars (session_at_preview pystr pystr id id id id id
                  (Some (Session batch)) inp) ≠ []
  ∧ ∃ sheet,
      conn = Some sheet
      ∧ run_calls r
        = [AppendRows
             (map row_of
                (found_cars (session_at_preview pystr pystr id id id id id
                               (Some (Session batch)) inp)))
             (lit "USER_ENTERED")].
Proof.
  intros batch conn inp r.
  apply (proj1 (proj2 (script_sheet_calls (fun _ => []) pystr pystr
                         id id id id id conn (Some (Session batch)) inp))).
  by vm_compute.
Defined.

Lemma reachable_batch_well_formed_witness :
  let st := run_session
              (script_run (fun _ => []) pystr pystr id id id id id None None
                 (Inputs pystr (Some (lit "JBC19-N7C5 x HKJ88-X2Z1"))
                    true false)) in
  well_formed_batch (found_cars st)
  ∧ NoDup (map code (found_cars st))
  ∧ (∀ r, r ∈ found_cars st →
          code_invariant (code r)
          ∧ generate_collecthw_url (code r) = Return (link r)
          ∧ link r ≠ LINK_ERROR).
Proof.
  intros st.
  apply (reachable_batch_well_formed (fun _ => []) pystr pystr
           id id id id id st).
  apply reachable_first.
Defined.

(** * Duplicates and order of the matches *)

Lemma sorted_regex_hunt text : sorted (regex_hunt text) = regex_hunt text.
Proof.
  apply (StronglySorted_unique str_le).
  - apply sorted_StronglySorted.
  - apply sorted_StronglySorted.
  - apply sorted_Permutation.
Qed.

(** X17: Extraction depends on the text only through the set of codes that
    the scan matches in it: how often a code was read, and where, does
    not show in the result. *)
Theorem extract_depends_on_match_set
    (Image : Type) (grayscale enhance_contrast : Image → Image)
    (image_to_string : Image → pystr) (image1 image2 : Image) :
  (∀ c,
     c ∈ re_findall pattern
           (image_to_string (enhance_contrast (grayscale image1)))
     ↔ c ∈ re_findall pattern
             (image_to_string (enhance_contrast (grayscale image2)))) →
  extract_all_codes Image grayscale enhance_contrast image_to_string image1
  = extract_all_codes Image grayscale enhance_contrast image_to_string
      image2.
Proof.
  unfold extract_all_codes.
  set (t1 := image_to_string (enhance_contrast (grayscale image1))).
  set (t2 := image_to_string (enhance_contrast (grayscale image2))).
  intros H. rewrite <- (sorted_regex_hunt t1).
  apply regex_hunt_any_enumeration; [apply regex_hunt_NoDup|].
  intros c. by rewrite elem_of_regex_hunt.
Qed.

Lemma extract_depends_on_match_set_witness :
  extract_all_codes pystr id id id
    (lit "JBC19-N7C5 JBC19-N7C5 HKJ88-X2Z1 JBC19-N7C5")
  = extract_all_codes pystr id id id (lit "HKJ88-X2Z1 JBC19-N7C5").
Proof.
  apply (extract_depends_on_match_set pystr id id id).
  assert (H1 : re_findall pattern
                 (id (id (id (lit "JBC19-N7C5 JBC19-N7C5 HKJ88-X2Z1 JBC19-N7C5"))))
               = [lit "JBC19-N7C5"; lit "JBC19-N7C5"; lit "HKJ88-X2Z1";
                  lit "JBC19-N7C5"]) by (by vm_compute).
  assert (H2 : re_findall pattern
                 (id (id (id (lit "HKJ88-X2Z1 JBC19-N7C5"))))
               = [lit "HKJ88-X2Z1"; lit "JBC19-N7C5"]) by (by vm_compute).
  intros c. rewrite H1, H2, !elem_of_cons, elem_of_nil. tauto.
Defined.
